(** * PreliminaryClustering: a shallow embedding of [PreliminaryClustering.py]

    The class [PreliminaryClustering] turns per-frame facial landmark
    coordinates into per-video histograms over the kernels of a Gaussian
    mixture, and splits the kernels into neutral and relevant ones.

    Conventions of the embedding.
    - float64 values are idealised as exact rationals ([Qc], canonical
      fractions, so that equality is Leibniz equality).  The one operation of
      the class that leaves the finite range with finite operands is the
      division that normalises a histogram: its IEEE results for a zero
      divisor (nan, +inf, -inf) are kept explicit in [fval].
    - [np.power (_, 0.5)] is a parameter [pow_half] of the development.
    - Python exceptions are results [Raise name], the name being the
      exception class.
    - [RobustScaler] (scikit-learn) and [FisherVectorGMM] (fishervector) are
      libraries outside the repository: they are parameters, given as records
      of functions, and every call to them is recorded in a trace.
    - [pd.read_csv] is not modelled: the two tables are given as loaded.
    - the [verbose] prints are left out. *)

From Stdlib Require Import String Ascii List FinFun ZArith QArith Qcanon Qround Bool Lia.
From Stdlib Require Import Decimal DecimalString DecimalNat.
Import ListNotations.

Set Implicit Arguments.
Local Open Scope Z_scope.

(** ** Exceptions *)

Definition exn := string.

Inductive result (A : Type) : Type :=
| Ok (a : A)
| Raise (e : exn).

Arguments Ok {A} a.
Arguments Raise {A} e.

Definition rbind {A B} (r : result A) (k : A -> result B) : result B :=
  match r with
  | Ok a => k a
  | Raise e => Raise e
  end.

Declare Scope result_scope.
Delimit Scope result_scope with result.
Notation "x <- r ;; k" := (rbind r (fun x => k))
  (at level 61, r at next level, right associativity) : result_scope.
Notation "' pat <- r ;; k" := (rbind r (fun x => match x with pat => k end))
  (at level 61, pat pattern, r at next level, right associativity) : result_scope.

(** [[f(x) for x in l]], stopping at the first exception. *)
Fixpoint mapM {A B} (f : A -> result B) (l : list A) : result (list B) :=
  match l with
  | [] => Ok []
  | x :: l' =>
      (y <- f x ;; ys <- mapM f l' ;; Ok (y :: ys))%result
  end.

(** ** Python and numpy helpers *)

(** [l[i]] for a Python list or a numpy axis: a negative index counts from the
    end, an index out of range raises IndexError. *)
Definition py_index {A} (l : list A) (i : Z) : result A :=
  let n := Z.of_nat (length l) in
  let j := if i <? 0 then i + n else i in
  if (0 <=? j) && (j <? n) then
    match nth_error l (Z.to_nat j) with
    | Some a => Ok a
    | None => Raise "IndexError"%string
    end
  else Raise "IndexError"%string.

(** [np.arange(n)] *)
Definition arange (n : Z) : list Z := map Z.of_nat (seq 0 (Z.to_nat n)).

(** Elementwise binary operation on two arrays of the same shape. *)
Fixpoint zip_with {A B C} (f : A -> B -> C) (l : list A) (m : list B) : list C :=
  match l, m with
  | a :: l', b :: m' => f a b :: zip_with f l' m'
  | _, _ => []
  end.

(** Python's [sum(row)]: the integer 0 plus the elements, left to right. *)
Definition py_sum (row : list Qc) : Qc := fold_left Qcplus row (Q2Qc 0).

(** [dst[:] = src] where [dst] is a row of [n] cells: [src] must have [n]
    elements, or one element, which is then broadcast. *)
Definition assign_row (n : nat) (src : list Qc) : result (list Qc) :=
  if Nat.eqb (length src) n then Ok src
  else match src with
       | [x] => Ok (repeat x n)
       | _ => Raise "ValueError"%string
       end.

Definition matrix := list (list Qc).

(** A numpy array of four dimensions, as the fitting library takes it. *)
Record ndarray4 : Type := {
  shape4 : nat * nat * nat * nat;
  cells4 : list (list matrix)
}.

(** The result of a float64 division. *)
Inductive fval : Type :=
| Finite (q : Qc)
| PosInf
| NegInf
| NaN.

Definition Qc_ltb (x y : Qc) : bool := negb (Qle_bool y x).

(** numpy's [x / total] *)
Definition np_divide (x total : Qc) : fval :=
  if Qc_eq_bool total (Q2Qc 0) then
    if Qc_eq_bool x (Q2Qc 0) then NaN
    else if Qc_ltb (Q2Qc 0) x then PosInf else NegInf
  else Finite (x / total)%Qc.

(** [h > t] for a float64 [h]: false on nan. *)
Definition fval_gtb (h : fval) (t : Qc) : bool :=
  match h with
  | Finite q => Qc_ltb t q
  | PosInf => true
  | NegInf => false
  | NaN => false
  end.

(** ** The tables read from the csv files *)

(** [coord_df]: one row per frame.  [frame_seq] is the value of the column
    labelled '0' (the sequence number), [frame_coords] the row of
    [coord_df.values[:, 2:]], and [coord_width] the number of columns of that
    array, which numpy knows also when there is no row.  In an array every
    row has that many cells; the statements that need it say so. *)
Record coord_row : Type := {
  frame_seq : Z;
  frame_coords : list Qc
}.

Record coord_table : Type := {
  coord_width : nat;
  coord_rows : list coord_row
}.

(** [seq_df]: one row per video; the model keeps the column at position 1,
    the VAS label read by [seq_df.iloc[seq_num][1]]. *)
Definition seq_table := list Z.

(** ** Configuration values that are an int or a list *)

Inductive kernels : Type :=
| KInt (k : Z)
| KList (l : list Z).

Inductive threshold : Type :=
| TNone
| TScalar (t : Qc)
| TList (l : list Qc).

(** ** The libraries the class calls *)

(** [sklearn.preprocessing.RobustScaler]: [fit] yields the fitted statistics,
    [transform] applies them.  Either may raise. *)
Record RobustScaler : Type := {
  scaler_params : Type;
  scaler_fit : matrix -> result scaler_params;
  scaler_transform : scaler_params -> matrix -> result matrix
}.

(** The encoding [predict] returns for one video: an array of shape
    (1, frames, 2 * kernels, features). *)
Definition fisher_vector := list (list matrix).

(** [fishervector.FisherVectorGMM]: the constructor takes the covariance type
    and, for [fit], the number of kernels; [gmm_means] is the attribute
    [means] of the fitted model. *)
Record FisherVectorGMM : Type := {
  gmm_model : Type;
  fv_fit : string -> kernels -> ndarray4 -> result gmm_model;
  fv_fit_by_bic : string -> kernels -> ndarray4 -> result gmm_model;
  gmm_means : gmm_model -> matrix;
  fv_predict : gmm_model -> ndarray4 -> result fisher_vector
}.

(** ** Calls to the libraries, in the order they are made *)

Inductive event : Type :=
| CallScalerFit (X : matrix)
| CallScalerTransform (X : matrix)
| CallGmmFit (n : kernels) (X : ndarray4)
| CallGmmFitByBic (choices : kernels) (X : ndarray4)
| CallGmmPredict (X : ndarray4).

Definition trace := list event.

(** A computation that may raise and that adds to the trace of calls. *)
Definition M (A : Type) : Type := trace -> result A * trace.

Definition mret {A} (a : A) : M A := fun tr => (Ok a, tr).

Definition mbind {A B} (m : M A) (k : A -> M B) : M B :=
  fun tr =>
    match m tr with
    | (Ok a, tr') => k a tr'
    | (Raise e, tr') => (Raise e, tr')
    end.

Definition lift {A} (r : result A) : M A := fun tr => (r, tr).

Definition call {A} (ev : event) (r : result A) : M A :=
  fun tr => (r, tr ++ [ev]).

Declare Scope monad_scope.
Delimit Scope monad_scope with monad.
Notation "x <- m ;; k" := (mbind m (fun x => k))
  (at level 61, m at next level, right associativity) : monad_scope.
Notation "' pat <- m ;; k" := (mbind m (fun x => match x with pat => k end))
  (at level 61, pat pattern, m at next level, right associativity) : monad_scope.

Fixpoint mapMM {A B} (f : A -> M B) (l : list A) : M (list B) :=
  match l with
  | [] => mret []
  | x :: l' => (y <- f x ;; ys <- mapMM f l' ;; mret (y :: ys))%monad
  end.

(** Whether a computation made a call that fits a mixture model. *)
Definition is_gmm_fit (ev : event) : bool :=
  match ev with
  | CallGmmFit _ _ | CallGmmFitByBic _ _ => true
  | _ => false
  end.

(** ** The class *)

(** The fields of [self] that the methods read or write ([coord_df_path] and
    [seq_df_path] stand for the two tables, which are passed as loaded). *)
Record PreliminaryClustering (G : Type) : Type := {
  num_lndks : nat;
  selected_lndks_idx : list Z;
  train_video_idx : list Z;
  fit_by_bic : bool;
  threshold_neutral : threshold;
  n_kernels : kernels;
  covariance_type : string;
  gmm : option G;
  fisher_vectors : option (list fisher_vector);
  histograms_of_videos : option (list (list fval));
  index_relevant_configurations : option (list Z);
  index_neutral_configurations : option (list Z)
}.

Definition set_threshold_and_kernels {G} (t : threshold) (k : kernels)
    (self : PreliminaryClustering G) : PreliminaryClustering G :=
  {| num_lndks := num_lndks self;
     selected_lndks_idx := selected_lndks_idx self;
     train_video_idx := train_video_idx self;
     fit_by_bic := fit_by_bic self;
     threshold_neutral := t;
     n_kernels := k;
     covariance_type := covariance_type self;
     gmm := gmm self;
     fisher_vectors := fisher_vectors self;
     histograms_of_videos := histograms_of_videos self;
     index_relevant_configurations := index_relevant_configurations self;
     index_neutral_configurations := index_neutral_configurations self |}.

Definition set_results {G} (g : G) (fvs : list fisher_vector)
    (hs : list (list fval)) (rel neu : list Z)
    (self : PreliminaryClustering G) : PreliminaryClustering G :=
  {| num_lndks := num_lndks self;
     selected_lndks_idx := selected_lndks_idx self;
     train_video_idx := train_video_idx self;
     fit_by_bic := fit_by_bic self;
     threshold_neutral := threshold_neutral self;
     n_kernels := n_kernels self;
     covariance_type := covariance_type self;
     gmm := Some g;
     fisher_vectors := Some fvs;
     histograms_of_videos := Some hs;
     index_relevant_configurations := Some rel;
     index_neutral_configurations := Some neu |}.

Section Pipeline.

Variable pow_half : Qc -> Qc.
Variable scaler : RobustScaler.
Variable fisher : FisherVectorGMM.

Local Abbreviation self_t := (PreliminaryClustering (gmm_model fisher)).

(** *** __get_velocities_frames *)

(** [coord_df.loc[coord_df['0'] == seq_num].values[:, 2:]] *)
Definition video_lndks (coord_df : coord_table) (seq_num : Z) : matrix :=
  map (@frame_coords)
      (filter (fun r => frame_seq r =? seq_num) (coord_rows coord_df)).

(** One row of [lndks - offset]: the x of the nose tip (column 30) is taken
    from the first [num_lndks] columns, its y (column 30 + num_lndks) from
    the next [num_lndks]. *)
Definition center (L : nat) (row : list Qc) : list Qc :=
  let nose_tip_x := nth 30 row (Q2Qc 0) in
  let nose_tip_y := nth (30 + L) row (Q2Qc 0) in
  zip_with Qcminus row (repeat nose_tip_x L ++ repeat nose_tip_y L).

(** [np.power(x, 2)] *)
Definition square (x : Qc) : Qc := (x * x)%Qc.

(** One row of [lndk_vel], from two consecutive centered frames. *)
Definition frame_velocity (L : nat) (a b : list Qc) : list Qc :=
  zip_with (fun dx dy => pow_half (square dx + square dy)%Qc)
    (zip_with Qcminus (firstn L a) (firstn L b))
    (zip_with Qcminus (skipn L a) (skipn L b)).

(** [lndk_vel]: rows 0 .. F-2 of the centered frames against rows 1 .. F-1. *)
Definition lndk_vel (L : nat) (lndks_centered : matrix) : matrix :=
  zip_with (frame_velocity L) (removelast lndks_centered) (tl lndks_centered).

(** The body of the loop over [seq_num].  Column 30 and column 30 + num_lndks
    must exist (IndexError), and [lndks] and [offset], which has
    2 * num_lndks columns, must have the same width (ValueError: with more
    than 30 columns no broadcasting applies).  The collection loop
    [for k in np.arange(1, lndk_vel.shape[0])] starts at row 1. *)
Definition video_velocities (self : self_t)
    (width : nat) (lndks : matrix) : result matrix :=
  let L := num_lndks self in
  if negb (30 <? width)%nat then Raise "IndexError"%string
  else if negb (30 + L <? width)%nat then Raise "IndexError"%string
  else if negb (width =? L + L)%nat then Raise "ValueError"%string
  else
    let lndks_centered := map (center L) lndks in
    mapM (fun row => mapM (py_index row) (selected_lndks_idx self))
         (tl (lndk_vel L lndks_centered)).

Definition get_velocities_frames (self : self_t)
    (coord_df : coord_table) (seq_df : seq_table) : result (list matrix) :=
  mapM (fun seq_num =>
          video_velocities self (coord_width coord_df)
                           (video_lndks coord_df seq_num))
       (arange (Z.of_nat (length seq_df))).

(** *** __scale_features *)

(** The write-back loop for one video: row [frame_idx] takes
    [features_all_frames[feat_count]]. *)
Fixpoint write_back_video (features_all_frames : matrix) (feat_count : nat)
    (feature_video : matrix) : result (matrix * nat) :=
  match feature_video with
  | [] => Ok ([], feat_count)
  | feature_frame :: rest =>
      (src <- match nth_error features_all_frames feat_count with
              | Some r => Ok r
              | None => Raise "IndexError"%string
              end ;;
       row <- assign_row (length feature_frame) src ;;
       ' (rows, c) <- write_back_video features_all_frames (S feat_count) rest ;;
       Ok (row :: rows, c))%result
  end.

Fixpoint write_back (features_all_frames : matrix) (feat_count : nat)
    (velocities : list matrix) : result (list matrix) :=
  match velocities with
  | [] => Ok []
  | feature_video :: rest =>
      (' (v, c) <- write_back_video features_all_frames feat_count feature_video ;;
       vs <- write_back features_all_frames c rest ;;
       Ok (v :: vs))%result
  end.

(** The matrix the scaler is fitted on. *)
Definition features_train_frames (self : self_t)
    (velocities : list matrix) : result matrix :=
  (train_velocities <- mapM (py_index velocities) (train_video_idx self) ;;
   Ok (concat train_velocities))%result.

Definition scale_features (self : self_t)
    (velocities : list matrix) : M (list matrix) :=
  (train <- lift (features_train_frames self velocities) ;;
   let features_all_frames := concat velocities in
   fitted <- call (CallScalerFit train) (scaler_fit scaler train) ;;
   scaled <- call (CallScalerTransform features_all_frames)
                  (scaler_transform scaler fitted features_all_frames) ;;
   lift (write_back scaled 0 velocities))%monad.

(** *** __prepare_training_features *)

(** The rows written for one training video, each into a row of
    [n_features_for_frame] cells. *)
Definition training_rows (self : self_t)
    (velocities : list matrix) (video_idx : Z) : result matrix :=
  (video <- py_index velocities video_idx ;;
   mapM (assign_row (length (selected_lndks_idx self))) video)%result.

(** The array is allocated with shape (1, train_num_frames, 1,
    n_features_for_frame) and its rows are written one after the other, so
    all of them are written. *)
Definition prepare_training_features (self : self_t)
    (velocities : list matrix) : result ndarray4 :=
  (train_velocities <- mapM (py_index velocities) (train_video_idx self) ;;
   let train_num_frames := list_sum (map (@length _) train_velocities) in
   let n_features_for_frame := length (selected_lndks_idx self) in
   rows <- mapM (training_rows self velocities) (train_video_idx self) ;;
   Ok {| shape4 := (1, train_num_frames, 1, n_features_for_frame)%nat;
         cells4 := [map (fun r => [r]) (concat rows)] |})%result.

(** *** __generate_gmm *)

(** [l.index(x)]: the first position of [x], ValueError when absent. *)
Fixpoint list_index (l : list Z) (x : Z) : result Z :=
  match l with
  | [] => Raise "ValueError"%string
  | y :: l' =>
      if y =? x then Ok 0
      else (i <- list_index l' x ;; Ok (i + 1))%result
  end.

(** [self.threshold_neutral[self.n_kernels.index(n_kernels_current_GMM)]],
    evaluated when the threshold is a list; an int has no method [index]. *)
Definition select_threshold (thr : threshold) (choices : kernels)
    (n_kernels_current_GMM : Z) : result threshold :=
  match thr with
  | TList ths =>
      match choices with
      | KList ks =>
          (i <- list_index ks n_kernels_current_GMM ;;
           t <- py_index ths i ;;
           Ok (TScalar t))%result
      | KInt _ => Raise "AttributeError"%string
      end
  | other => Ok other
  end.

(** Returns the fitted model and [self] with the two fields the BIC branch
    assigns. *)
Definition generate_gmm (self : self_t) (train_frames_features : ndarray4)
    : M (gmm_model fisher * self_t) :=
  if fit_by_bic self then
    (g <- call (CallGmmFitByBic (n_kernels self) train_frames_features)
               (fv_fit_by_bic fisher (covariance_type self) (n_kernels self)
                              train_frames_features) ;;
     let n_kernels_current_GMM := Z.of_nat (length (gmm_means fisher g)) in
     thr <- lift (select_threshold (threshold_neutral self) (n_kernels self)
                                   n_kernels_current_GMM) ;;
     mret (g, set_threshold_and_kernels thr (KInt n_kernels_current_GMM) self))%monad
  else
    (g <- call (CallGmmFit (n_kernels self) train_frames_features)
               (fv_fit fisher (covariance_type self) (n_kernels self)
                       train_frames_features) ;;
     mret (g, self))%monad.

(** *** __calculate_FV *)

(** [np.array(feature).reshape(1, feature.shape[0], 1, n_features_for_frame)]:
    the number of cells must not change. *)
Definition reshape_video (n_features_for_frame : nat) (feature : matrix)
    : result ndarray4 :=
  if forallb (fun r => Nat.eqb (length r) n_features_for_frame) feature then
    Ok {| shape4 := (1, length feature, 1, n_features_for_frame)%nat;
          cells4 := [map (fun r => [r]) feature] |}
  else Raise "ValueError"%string.

Definition calculate_FV (self : self_t) (g : gmm_model fisher)
    (velocities : list matrix) : M (list fisher_vector) :=
  mapMM (fun feature =>
           (X <- lift (reshape_video (length (selected_lndks_idx self)) feature) ;;
            call (CallGmmPredict X) (fv_predict fisher g X))%monad)
        velocities.

(** *** __generate_histograms *)

(** The uses of [self.n_kernels] as an int ([np.zeros], [range],
    [np.arange]).  A list reaches them only when a list was configured without
    BIC selection and the fitting library took it; the model stops there with
    TypeError. *)
Definition kernel_count (k : kernels) : result Z :=
  match k with
  | KInt n => Ok n
  | KList _ => Raise "TypeError"%string
  end.

(** [hist[j] += x] *)
Fixpoint add_at (j : nat) (x : Qc) (hist : list Qc) : list Qc :=
  match hist, j with
  | [], _ => []
  | h :: hist', O => (h + x)%Qc :: hist'
  | h :: hist', S j' => h :: add_at j' x hist'
  end.

(** [frame[i]] for an index that is not negative. *)
Definition row_at {A} (l : list A) (i : nat) : result A :=
  match nth_error l i with
  | Some a => Ok a
  | None => Raise "IndexError"%string
  end.

(** The loop over [index_configuration] for one frame. *)
Fixpoint add_frame (K : nat) (frame : matrix) (js : list nat)
    (video_histogram : list Qc) : result (list Qc) :=
  match js with
  | [] => Ok video_histogram
  | j :: js' =>
      (mean_block <- row_at frame j ;;
       cov_block <- row_at frame (j + K) ;;
       add_frame K frame js'
         (add_at j (py_sum mean_block + py_sum cov_block)%Qc video_histogram))%result
  end.

(** The loop over the frames of one video. *)
Fixpoint accumulate (K : nat) (frames : list matrix)
    (video_histogram : list Qc) : result (list Qc) :=
  match frames with
  | [] => Ok video_histogram
  | frame :: frames' =>
      (h <- add_frame K frame (seq 0 K) video_histogram ;;
       accumulate K frames' h)%result
  end.

(** [video_histogram / sum(video_histogram)] *)
Definition normalize (video_histogram : list Qc) : list fval :=
  map (fun x => np_divide x (py_sum video_histogram)) video_histogram.

(** The body of the loop over the videos; [np.zeros] rejects a negative
    length. *)
Definition video_histogram (n : kernels) (video_fv : fisher_vector)
    : result (list fval) :=
  (current_video_fv <- row_at video_fv 0 ;;
   K <- kernel_count n ;;
   zeros <- (if K <? 0 then Raise "ValueError"%string
             else Ok (repeat (Q2Qc 0) (Z.to_nat K))) ;;
   acc <- accumulate (Z.to_nat K) current_video_fv zeros ;;
   Ok (normalize acc))%result.

Definition generate_histograms (self : self_t) (fvs : list fisher_vector)
    : result (list (list fval)) :=
  mapM (video_histogram (n_kernels self)) fvs.

(** *** __extract_relevant_and_neutral_configurations *)

(** [hist[j] > self.threshold_neutral].  With a list numpy compares
    elementwise, and the truth value of the array that results is that of its
    element when there is exactly one, and ValueError otherwise (for an empty
    list since numpy 2.2).  With None the comparison raises TypeError. *)
Definition exceeds (h : fval) (thr : threshold) : result bool :=
  match thr with
  | TScalar t => Ok (fval_gtb h t)
  | TList [t] => Ok (fval_gtb h t)
  | TList _ => Raise "ValueError"%string
  | TNone => Raise "TypeError"%string
  end.

(** [j in index_neutral_configurations] *)
Definition mem (j : Z) (l : list Z) : bool := existsb (Z.eqb j) l.

(** The loop over [j] for one pain-free training video. *)
Fixpoint mark_neutral (thr : threshold) (hist : list fval) (js : list Z)
    (index_neutral_configurations : list Z) : result (list Z) :=
  match js with
  | [] => Ok index_neutral_configurations
  | j :: js' =>
      (h <- row_at hist (Z.to_nat j) ;;
       above <- exceeds h thr ;;
       mark_neutral thr hist js'
         (if above && negb (mem j index_neutral_configurations)
          then index_neutral_configurations ++ [j]
          else index_neutral_configurations))%result
  end.

(** The loop over the training videos. *)
Fixpoint scan_training (self : self_t) (seq_df : seq_table)
    (histograms : list (list fval)) (train : list Z)
    (index_neutral_configurations : list Z) : result (list Z) :=
  match train with
  | [] => Ok index_neutral_configurations
  | seq_num :: train' =>
      (vas <- py_index seq_df seq_num ;;
       neutral <- (if vas =? 0 then
                     (hist <- py_index histograms seq_num ;;
                      K <- kernel_count (n_kernels self) ;;
                      mark_neutral (threshold_neutral self) hist (arange K)
                                   index_neutral_configurations)
                   else Ok index_neutral_configurations) ;;
       scan_training self seq_df histograms train' neutral)%result
  end.

Definition extract_relevant_and_neutral_configurations (self : self_t)
    (seq_df : seq_table) (histograms : list (list fval))
    : result (list Z * list Z) :=
  (index_neutral_configurations <-
     scan_training self seq_df histograms (train_video_idx self) [] ;;
   K <- kernel_count (n_kernels self) ;;
   let index_relevant_configurations :=
     filter (fun x => negb (mem x index_neutral_configurations)) (arange K) in
   Ok (index_relevant_configurations, index_neutral_configurations))%result.

(** *** execute_preliminary_clustering

    The optional plotting and pickling at the end only write files. *)
Definition execute_preliminary_clustering (self : self_t)
    (coord_df : coord_table) (seq_df : seq_table) : M self_t :=
  (velocities <- lift (get_velocities_frames self coord_df seq_df) ;;
   velocities_scaled <- scale_features self velocities ;;
   train_frames_features <- lift (prepare_training_features self velocities_scaled) ;;
   ' (g, self1) <- generate_gmm self train_frames_features ;;
   fvs <- calculate_FV self1 g velocities_scaled ;;
   histograms <- lift (generate_histograms self1 fvs) ;;
   ' (rel, neu) <- lift (extract_relevant_and_neutral_configurations
                           self1 seq_df histograms) ;;
   mret (set_results g fvs histograms rel neu self1))%monad.

End Pipeline.

(** ** __plot_and_save_histograms

    The calls to matplotlib are collected in the order they are made; an
    exception leaves the calls made before it. *)

Inductive plot_call : Type :=
| PltBar (x : list Z) (height : list fval) (color : string)
| PltTitle (label : string)
| PltSavefig (fname : string)
| PltClose.

(** [str(idx)] for an index that is not negative *)
Definition str_of_nat (n : nat) : string :=
  NilEmpty.string_of_uint (Nat.to_uint n).

Fixpoint zeros (n : nat) : string :=
  match n with
  | O => EmptyString
  | S n' => String "0" (zeros n')
  end.

(** ['%03d' % idx]: the decimal digits, with zeros in front up to three
    characters. *)
Definition format_03d (n : nat) : string :=
  (zeros (3 - String.length (str_of_nat n)) ++ str_of_nat n)%string.

(** [if len(index): plt.bar(index, histo[np.array(index)], color=color)] *)
Definition plot_bar (index : list Z) (histo : list fval) (color : string)
    : result (list plot_call) :=
  match index with
  | [] => Ok []
  | _ :: _ =>
      (height <- mapM (py_index histo) index ;;
       Ok [PltBar index height color])%result
  end.

(** The body of the loop over [enumerate(self.histograms_of_videos)]. *)
Definition plot_video (index_neutral index_relevant : list Z)
    (histo_figures_path : string) (idx : nat) (histo : list fval)
    : list plot_call * result unit :=
  match plot_bar index_neutral histo "blue" with
  | Raise e => ([], Raise e)
  | Ok blue =>
      match plot_bar index_relevant histo "red" with
      | Raise e => (blue, Raise e)
      | Ok red =>
          (blue ++ red ++
           [PltTitle ("VIDEO #" ++ str_of_nat idx)%string;
            PltSavefig (histo_figures_path ++ "video-" ++ format_03d idx ++ ".png")%string;
            PltClose],
           Ok tt)
      end
  end.

Fixpoint plot_videos (index_neutral index_relevant : list Z)
    (histo_figures_path : string) (idx : nat) (histograms : list (list fval))
    : list plot_call * result unit :=
  match histograms with
  | [] => ([], Ok tt)
  | histo :: rest =>
      match plot_video index_neutral index_relevant histo_figures_path idx histo with
      | (calls, Raise e) => (calls, Raise e)
      | (calls, Ok _) =>
          let (calls', r) :=
            plot_videos index_neutral index_relevant histo_figures_path (S idx) rest in
          (calls ++ calls', r)
      end
  end.

(** The method reads [self.histograms_of_videos] and the two index lists,
    which [execute_preliminary_clustering] has assigned before the call. *)
Definition plot_and_save_histograms (histograms : list (list fval))
    (index_neutral index_relevant : list Z) (histo_figures_path : string)
    : list plot_call * result unit :=
  plot_videos index_neutral index_relevant histo_figures_path 0 histograms.

(** The names of the files written. *)
Definition saved_files (calls : list plot_call) : list string :=
  flat_map (fun c => match c with PltSavefig f => [f] | _ => [] end) calls.


(** ** Translations of the landmarks *)

(** A frame whose landmarks are all moved by (dx, dy). *)
Definition translate (L : nat) (dx dy : Qc) (row : list Qc) : list Qc :=
  zip_with Qcplus row (repeat dx L ++ repeat dy L).

(** A table in which every frame [r] is moved by [off r]. *)
Definition translate_table (L : nat) (off : coord_row -> Qc * Qc)
    (coord_df : coord_table) : coord_table :=
  {| coord_width := coord_width coord_df;
     coord_rows :=
       map (fun r =>
              {| frame_seq := frame_seq r;
                 frame_coords :=
                   translate L (fst (off r)) (snd (off r)) (frame_coords r) |})
           (coord_rows coord_df) |}.

(** ** Another training set *)

Definition set_train_video_idx {G} (train : list Z)
    (self : PreliminaryClustering G) : PreliminaryClustering G :=
  {| num_lndks := num_lndks self;
     selected_lndks_idx := selected_lndks_idx self;
     train_video_idx := train;
     fit_by_bic := fit_by_bic self;
     threshold_neutral := threshold_neutral self;
     n_kernels := n_kernels self;
     covariance_type := covariance_type self;
     gmm := gmm self;
     fisher_vectors := fisher_vectors self;
     histograms_of_videos := histograms_of_videos self;
     index_relevant_configurations := index_relevant_configurations self;
     index_neutral_configurations := index_neutral_configurations self |}.

(** ** What the aggregator accumulates *)

(** The mass a frame gives to component [j]: the sum of its mean block (row
    [j]) plus the sum of its covariance block (row [j + K]). *)
Definition block_mass (K : nat) (frame : matrix) (j : nat) : Qc :=
  (py_sum (nth j frame []) + py_sum (nth (j + K) frame []))%Qc.

(** The mass of component [j] over the frames of a video. *)
Definition accumulated_mass (K : nat) (frames : list matrix) (j : nat) : Qc :=
  fold_left (fun a frame => (a + block_mass K frame j)%Qc) frames (Q2Qc 0).

Definition video_masses (K : nat) (video_fv : fisher_vector) : list Qc :=
  map (accumulated_mass K (nth 0 video_fv [])) (seq 0 K).

(** An encoding with a first axis and 2 * K rows in every frame. *)
Definition well_shaped (K : nat) (video_fv : fisher_vector) : Prop :=
  video_fv <> [] /\
  Forall (fun frame : matrix => (K + K <= length frame)%nat) (nth 0 video_fv []).

(** The gradient mass a frame contributes: what the loop over the components
    adds to the histogram for that frame, over the K components. *)
Definition frame_mass (K : nat) (frame : matrix) : Qc :=
  py_sum (map (block_mass K frame) (seq 0 K)).

(** An encoding without a negative entry.  The aggregator reads
    [self.fisher_vectors], which holds what [predict] returned for each
    video, and [predict] of the fishervector library sets every entry below
    1e-4 to 0 before it returns: the arrays the aggregator is given are of
    this kind. *)
Definition nonneg_encoding (video_fv : fisher_vector) : Prop :=
  Forall (Forall (Forall (Forall (fun x => (Q2Qc 0 <= x)%Qc)))) video_fv.

(** ** What the trace says about the scaler *)

(** The matrices [RobustScaler.fit] was called with. *)
Definition scaler_fit_calls (tr : trace) : list matrix :=
  flat_map (fun ev => match ev with CallScalerFit X => [X] | _ => [] end) tr.

(** ** What the write-back of the scaler keeps *)

(** A row written back has the width of the row it replaces and is the row
    of the transformed matrix at the same position in the flat order. *)
Definition same_width (old new : list Qc) : Prop := length new = length old.

Definition written_from (p : list Qc * list Qc) (new : list Qc) : Prop :=
  assign_row (length (fst p)) (snd p) = Ok new.

(** ** What the partitioner marks *)

(** Component [j] exceeds the threshold in [hist]. *)
Definition exceeds_at (t : Qc) (hist : list fval) (j : Z) : Prop :=
  exists h, row_at hist (Z.to_nat j) = Ok h /\ fval_gtb h t = true.

(** Component [j] exceeds the threshold in the histogram of a training video
    whose label is 0. *)
Definition marked (seq_df : seq_table) (histograms : list (list fval))
    (train : list Z) (t : Qc) (K : Z) (j : Z) : Prop :=
  exists seq_num hist,
    In seq_num train /\
    py_index seq_df seq_num = Ok 0 /\
    py_index histograms seq_num = Ok hist /\
    0 <= j < K /\
    exceeds_at t hist j.

(** ** Instances of the parameters and sample data

    The statements below hold for every square root, scaler and fitting
    library.  The instances here serve to run the class on concrete data. *)

(** A square root on fractions, rounded down on the numerator
    (sqrt (n/d) = sqrt (n*d) / d); exact on squares. *)
Definition sample_pow_half (x : Qc) : Qc :=
  Q2Qc (Z.sqrt (Qnum x * Zpos (Qden x)) # Qden x).

Fixpoint insert_sorted (x : Qc) (l : list Qc) : list Qc :=
  match l with
  | [] => [x]
  | y :: l' => if Qle_bool x y then x :: l else y :: insert_sorted x l'
  end.

(** The quantile [p] of a column, interpolating linearly between the two
    nearest ranks. *)
Definition quantile (p : Qc) (column : list Qc) : Qc :=
  let sorted := fold_right insert_sorted [] column in
  let pos := (p * Q2Qc (Z.of_nat (length sorted - 1) # 1))%Qc in
  let lo := Z.to_nat (Qfloor pos) in
  let frac := (pos - Q2Qc (Qfloor pos # 1))%Qc in
  let a := nth lo sorted (Q2Qc 0) in
  let b := nth (S lo) sorted a in
  (a + frac * (b - a))%Qc.

Definition column (X : matrix) (j : nat) : list Qc :=
  map (fun r => nth j r (Q2Qc 0)) X.

(** A scaler in the manner of RobustScaler: every column is centered on its
    median and divided by its interquartile range (by 1 when that is 0); an
    array without rows is rejected with ValueError, as scikit-learn does. *)
Definition sample_scaler : RobustScaler :=
  {| scaler_params := list (Qc * Qc);
     scaler_fit := fun X =>
       match X with
       | [] => Raise "ValueError"%string
       | r :: _ =>
           Ok (map (fun j =>
                      let c := column X j in
                      let iqr := (quantile (Q2Qc (3 # 4)) c - quantile (Q2Qc (1 # 4)) c)%Qc in
                      (quantile (Q2Qc (1 # 2)) c,
                       if Qc_eq_bool iqr (Q2Qc 0) then Q2Qc 1 else iqr))
                   (seq 0 (length r)))
       end;
     scaler_transform := fun p X =>
       match X with
       | [] => Raise "ValueError"%string
       | _ =>
           if forallb (fun r => Nat.eqb (length r) (length p)) X then
             Ok (map (fun r => zip_with (fun x cs => ((x - fst cs) / snd cs)%Qc) r p) X)
           else Raise "ValueError"%string
       end |}.

(** The rows of an array of shape (1, N, 1, D). *)
Definition tensor_rows (X : ndarray4) : matrix := concat (concat (cells4 X)).

(** A fitting library: [fit] takes the first rows as means, [fit_by_bic]
    takes the largest candidate that does not exceed the number of rows, and
    [predict] gives, per frame and kernel, the deviations from the mean and
    the squared deviations minus 1. *)
Definition sample_fit (n : Z) (X : ndarray4) : result matrix :=
  let rows := tensor_rows X in
  if (n <=? 0) || (Z.of_nat (length rows) <? n) then Raise "ValueError"%string
  else Ok (firstn (Z.to_nat n) rows).

Definition sample_fisher : FisherVectorGMM :=
  {| gmm_model := matrix;
     fv_fit := fun _ k X =>
       match k with
       | KInt n => sample_fit n X
       | KList _ => Raise "TypeError"%string
       end;
     fv_fit_by_bic := fun _ k X =>
       match k with
       | KList choices =>
           sample_fit
             (fold_left (fun best n =>
                           if (best <? n) && (n <=? Z.of_nat (length (tensor_rows X)))
                           then n else best) choices 0) X
       | KInt _ => Raise "TypeError"%string
       end;
     gmm_means := fun g => g;
     fv_predict := fun g X =>
       Ok [map (fun x =>
                  map (fun mu => zip_with Qcminus x mu) g ++
                  map (fun mu => zip_with (fun a m => ((a - m) * (a - m) - Q2Qc 1)%Qc) x mu) g)
               (tensor_rows X)] |}.

(** Three videos of 5, 4 and 6 frames with 68 landmarks: landmark [c] of
    frame [f] of video [v] is at (c + f * (c mod 3), v + f * f * (c mod 5)). *)
Definition sample_frame (v f : nat) : coord_row :=
  {| frame_seq := Z.of_nat v;
     frame_coords :=
       map (fun c => Q2Qc (Z.of_nat (c + f * (c mod 3)) # 1)) (seq 0 68) ++
       map (fun c => Q2Qc (Z.of_nat (v + f * f * (c mod 5)) # 1)) (seq 0 68) |}.

Definition sample_coord_df : coord_table :=
  {| coord_width := 136;
     coord_rows :=
       map (sample_frame 0) (seq 0 5) ++
       map (sample_frame 1) (seq 0 4) ++
       map (sample_frame 2) (seq 0 6) |}.

Definition sample_seq_df : seq_table := [0; 2; 0].

(** The configuration of [config_generate_model.py] with 2 kernels, training
    on videos 0 and 2. *)
Definition sample_self : PreliminaryClustering (gmm_model sample_fisher) :=
  {| num_lndks := 68;
     selected_lndks_idx := [5; 11; 19; 24; 37; 41; 56; 58];
     train_video_idx := [0; 2];
     fit_by_bic := false;
     threshold_neutral := TScalar (Q2Qc (3 # 10));
     n_kernels := KInt 2;
     covariance_type := "diag"%string;
     gmm := None;
     fisher_vectors := None;
     histograms_of_videos := None;
     index_relevant_configurations := None;
     index_neutral_configurations := None |}.

(** The same with the nose tip among the selected landmarks. *)
Definition sample_self_nose : PreliminaryClustering (gmm_model sample_fisher) :=
  {| num_lndks := 68;
     selected_lndks_idx := [5; 30; 58];
     train_video_idx := [0; 2];
     fit_by_bic := false;
     threshold_neutral := TScalar (Q2Qc (3 # 10));
     n_kernels := KInt 2;
     covariance_type := "diag"%string;
     gmm := None;
     fisher_vectors := None;
     histograms_of_videos := None;
     index_relevant_configurations := None;
     index_neutral_configurations := None |}.

(** BIC selection over the candidates 2 and 3 with one threshold each. *)
Definition sample_self_bic : PreliminaryClustering (gmm_model sample_fisher) :=
  {| num_lndks := 68;
     selected_lndks_idx := [5; 11; 19; 24; 37; 41; 56; 58];
     train_video_idx := [0; 2];
     fit_by_bic := true;
     threshold_neutral := TList [Q2Qc (2 # 10); Q2Qc (4 # 10)];
     n_kernels := KList [2; 3];
     covariance_type := "diag"%string;
     gmm := None;
     fisher_vectors := None;
     histograms_of_videos := None;
     index_relevant_configurations := None;
     index_neutral_configurations := None |}.

(** No training video. *)
Definition sample_self_no_training : PreliminaryClustering (gmm_model sample_fisher) :=
  {| num_lndks := 68;
     selected_lndks_idx := [5; 11; 19; 24; 37; 41; 56; 58];
     train_video_idx := [];
     fit_by_bic := false;
     threshold_neutral := TScalar (Q2Qc (3 # 10));
     n_kernels := KInt 2;
     covariance_type := "diag"%string;
     gmm := None;
     fisher_vectors := None;
     histograms_of_videos := None;
     index_relevant_configurations := None;
     index_neutral_configurations := None |}.

Arguments video_velocities pow_half {fisher} self width lndks.
Arguments get_velocities_frames pow_half {fisher} self coord_df seq_df.
Arguments features_train_frames {fisher} self velocities.
Arguments scale_features scaler {fisher} self velocities _.
Arguments training_rows {fisher} self velocities video_idx.
Arguments prepare_training_features {fisher} self velocities.
Arguments generate_gmm {fisher} self train_frames_features _.
Arguments calculate_FV {fisher} self g velocities _.
Arguments generate_histograms {fisher} self fvs.
Arguments scan_training {fisher} self seq_df histograms train index_neutral_configurations.
Arguments extract_relevant_and_neutral_configurations {fisher} self seq_df histograms.
Arguments execute_preliminary_clustering pow_half scaler {fisher} self coord_df seq_df _.

(** ** Sample runs *)

(** What the extractor returns on the sample tables. *)
Definition sample_velocities : list matrix :=
  Eval vm_compute in
    match get_velocities_frames sample_pow_half sample_self
                                sample_coord_df sample_seq_df with
    | Ok v => v
    | Raise _ => []
    end.

Definition sample_velocities_nose : list matrix :=
  Eval vm_compute in
    match get_velocities_frames sample_pow_half sample_self_nose
                                sample_coord_df sample_seq_df with
    | Ok v => v
    | Raise _ => []
    end.

(** The same arrays for the training videos 0 and 2, and another array for
    video 1. *)
Definition sample_velocities_other : list matrix :=
  Eval vm_compute in
    [nth 0 sample_velocities [];
     [repeat (Q2Qc 7) 8];
     nth 2 sample_velocities []].

(** The arrays of the training videos 0 and 2. *)
Definition sample_train_velocities : list matrix :=
  Eval vm_compute in [nth 0 sample_velocities []; nth 2 sample_velocities []].

(** The scaled arrays and the training tensor of the sample run. *)
Definition sample_scaled : list matrix :=
  Eval vm_compute in
    match scale_features sample_scaler sample_self sample_velocities [] with
    | (Ok v, _) => v
    | (Raise _, _) => []
    end.

Definition sample_tensor : ndarray4 :=
  Eval vm_compute in
    match prepare_training_features sample_self sample_scaled with
    | Ok X => X
    | Raise _ => {| shape4 := (0, 0, 0, 0)%nat; cells4 := [] |}
    end.

(** Encodings of one video with one frame, for 2 kernels and 2 features:
    rows 0 and 1 are the mean blocks, rows 2 and 3 the covariance blocks. *)
Definition sample_fv (frame : list (list Z)) : fisher_vector :=
  [[map (map (fun z => Q2Qc (z # 1))) frame]].

Definition sample_fv_positive : fisher_vector :=
  sample_fv [[1; 2]; [3; 0]; [0; 1]; [2; 2]].

Definition sample_fv_negative : fisher_vector :=
  sample_fv [[-1; 0]; [3; 0]; [0; 0]; [0; 0]].

Definition sample_fv_zero : fisher_vector :=
  sample_fv [[0; 0]; [0; 0]; [0; 0]; [0; 0]].

(** Histograms of three videos over 2 kernels; with the labels 0, 2, 0 the
    videos 0 and 2 are free of pain. *)
Definition sample_histograms : list (list fval) :=
  [[Finite (Q2Qc (6 # 10)); Finite (Q2Qc (3 # 10))];
   [Finite (Q2Qc (2 # 10)); Finite (Q2Qc (8 # 10))];
   [Finite (Q2Qc (7 # 10)); Finite (Q2Qc (3 # 10))]].

(** ** More sample data *)

(** Two landmarks, three videos of five frames: there is no landmark 30. *)
Definition sample_coord_df_two_landmarks : coord_table :=
  {| coord_width := 4;
     coord_rows :=
       flat_map (fun v =>
                   map (fun f =>
                          {| frame_seq := Z.of_nat v;
                             frame_coords :=
                               map (fun c => Q2Qc (Z.of_nat (v + f + c) # 1)) (seq 0 4) |})
                       (seq 0 5))
                (seq 0 3) |}.

Definition sample_self_two_landmarks : PreliminaryClustering (gmm_model sample_fisher) :=
  {| num_lndks := 2;
     selected_lndks_idx := [0; 1];
     train_video_idx := [0; 1; 2];
     fit_by_bic := false;
     threshold_neutral := TScalar (Q2Qc (3 # 10));
     n_kernels := KInt 2;
     covariance_type := "diag"%string;
     gmm := None;
     fisher_vectors := None;
     histograms_of_videos := None;
     index_relevant_configurations := None;
     index_neutral_configurations := None |}.

(** Landmark 68 is selected, of 68 landmarks. *)
Definition sample_self_bad_selection : PreliminaryClustering (gmm_model sample_fisher) :=
  {| num_lndks := 68;
     selected_lndks_idx := [5; 68];
     train_video_idx := [0; 2];
     fit_by_bic := false;
     threshold_neutral := TScalar (Q2Qc (3 # 10));
     n_kernels := KInt 2;
     covariance_type := "diag"%string;
     gmm := None;
     fisher_vectors := None;
     histograms_of_videos := None;
     index_relevant_configurations := None;
     index_neutral_configurations := None |}.

(** Video 7 is a training video, of three videos. *)
Definition sample_self_bad_training : PreliminaryClustering (gmm_model sample_fisher) :=
  set_train_video_idx [0; 7] sample_self.

(** Two candidates and one threshold. *)
Definition sample_self_bic_short : PreliminaryClustering (gmm_model sample_fisher) :=
  set_threshold_and_kernels (TList [Q2Qc (2 # 10)]) (KList [2; 3]) sample_self_bic.

(** Every frame moved by (5, -3), and further by the number of its video. *)
Definition sample_offset (r : coord_row) : Qc * Qc :=
  (Q2Qc (5 + frame_seq r # 1), Q2Qc (-3 # 1)).

(** The sample histograms with another histogram for video 1, and labels
    with another label for video 1. *)
Definition sample_histograms_other : list (list fval) :=
  [[Finite (Q2Qc (6 # 10)); Finite (Q2Qc (3 # 10))];
   [Finite (Q2Qc (1 # 10)); Finite (Q2Qc (9 # 10))];
   [Finite (Q2Qc (7 # 10)); Finite (Q2Qc (3 # 10))]].

Definition sample_seq_df_other : seq_table := [0; 0; 0].

(** The run on the sample data: the final [self] and the trace. *)
Definition sample_final : PreliminaryClustering (gmm_model sample_fisher) :=
  Eval vm_compute in
    match fst (execute_preliminary_clustering sample_pow_half sample_scaler
                 sample_self sample_coord_df sample_seq_df []) with
    | Ok s => s
    | Raise _ => sample_self
    end.

Definition sample_final_trace : trace :=
  Eval vm_compute in
    snd (execute_preliminary_clustering sample_pow_half sample_scaler
           sample_self sample_coord_df sample_seq_df []).


(** The model fitted with 2 kernels on the sample tensor, and the
    encodings of the three videos. *)
Definition sample_gmm : gmm_model sample_fisher :=
  Eval vm_compute in firstn 2 (tensor_rows sample_tensor).

(** * Properties *)

Unset Implicit Arguments.

(** ** Lists, exceptions and indices *)

Section ListFacts.

Context {A B C : Type}.

Lemma mapM_Forall2 (f : A -> result B) (l : list A) (ys : list B) :
  mapM f l = Ok ys <-> Forall2 (fun x y => f x = Ok y) l ys.
Proof.
  revert ys; induction l as [|x l IH]; intros ys; simpl.
  - split; intros H.
    + injection H as <-. constructor.
    + inversion H. reflexivity.
  - destruct (f x) as [y|e] eqn:Hx; simpl.
    + destruct (mapM f l) as [zs|e] eqn:Hl; simpl.
      * split; intros H.
        -- injection H as <-. constructor; [assumption | now apply IH].
        -- inversion H as [|? y' ? zs' Hy Hrest]; subst.
           apply IH in Hrest. congruence.
      * split; intros H; [discriminate|].
        inversion H as [|? y' ? zs' Hy Hrest]; subst.
        apply IH in Hrest. discriminate.
    + split; intros H; [discriminate|].
      inversion H; subst. congruence.
Qed.

Lemma mapM_length (f : A -> result B) l ys :
  mapM f l = Ok ys -> length ys = length l.
Proof.
  intros H. apply mapM_Forall2 in H.
  induction H; simpl; congruence.
Qed.

Lemma mapM_In (f : A -> result B) l ys y :
  mapM f l = Ok ys -> In y ys -> exists x, In x l /\ f x = Ok y.
Proof.
  intros H. apply mapM_Forall2 in H.
  induction H as [|x y' l ys Hxy _ IH]; simpl; intros Hin; [contradiction|].
  destruct Hin as [<-|Hin].
  - exists x; auto.
  - destruct (IH Hin) as (x' & ? & ?). exists x'; auto.
Qed.

Lemma mapM_nth_error (f : A -> result B) l ys i y :
  mapM f l = Ok ys -> nth_error ys i = Some y ->
  exists x, nth_error l i = Some x /\ f x = Ok y.
Proof.
  intros H. apply mapM_Forall2 in H. revert i.
  induction H as [|x y' l ys Hxy _ IH]; intros [|i]; simpl; intros Hi;
    try discriminate.
  - injection Hi as <-. exists x; auto.
  - apply IH; assumption.
Qed.

Lemma mapM_nth_error_src (f : A -> result B) l ys i x :
  mapM f l = Ok ys -> nth_error l i = Some x ->
  exists y, nth_error ys i = Some y /\ f x = Ok y.
Proof.
  intros H. apply mapM_Forall2 in H. revert i.
  induction H as [|x' y l ys Hxy _ IH]; intros [|i]; simpl; intros Hi;
    try discriminate.
  - injection Hi as <-. exists y; auto.
  - apply IH; assumption.
Qed.

Lemma mapM_defined (f : A -> result B) l :
  (forall x, In x l -> exists y, f x = Ok y) -> exists ys, mapM f l = Ok ys.
Proof.
  induction l as [|x l IH]; simpl; intros H.
  - eexists; reflexivity.
  - destruct (H x (or_introl eq_refl)) as (y & ->).
    destruct IH as (ys & ->); [intros; apply H; auto|].
    simpl. eexists; reflexivity.
Qed.

Lemma mapM_ext (f g : A -> result B) l :
  (forall x, In x l -> f x = g x) -> mapM f l = mapM g l.
Proof.
  induction l as [|x l IH]; simpl; intros H; [reflexivity|].
  rewrite (H x (or_introl eq_refl)), IH; [reflexivity|].
  intros; apply H; auto.
Qed.

Lemma zip_with_length (f : A -> B -> C) l m :
  length (zip_with f l m) = Nat.min (length l) (length m).
Proof.
  revert m; induction l as [|a l IH]; intros [|b m]; simpl; auto.
Qed.

Lemma zip_with_nth_error (f : A -> B -> C) l m i c :
  nth_error (zip_with f l m) i = Some c ->
  exists a b, nth_error l i = Some a /\ nth_error m i = Some b /\ c = f a b.
Proof.
  revert m i; induction l as [|a l IH]; intros [|b m] [|i]; simpl; intros H;
    try discriminate.
  - injection H as <-. exists a, b; auto.
  - apply IH; assumption.
Qed.

Lemma zip_with_In (f : A -> B -> C) l m c :
  In c (zip_with f l m) -> exists a b, In a l /\ In b m /\ c = f a b.
Proof.
  intros H. apply In_nth_error in H as (i & H).
  apply zip_with_nth_error in H as (a & b & Ha & Hb & ->).
  exists a, b; eauto using nth_error_In.
Qed.

Lemma py_index_nonneg (l : list A) (i : Z) (a : A) :
  0 <= i -> py_index l i = Ok a -> nth_error l (Z.to_nat i) = Some a.
Proof.
  unfold py_index; intros Hi.
  destruct (Z.ltb_spec i 0); [lia|].
  destruct (_ && _); [|discriminate].
  destruct (nth_error l (Z.to_nat i)); congruence.
Qed.

Lemma py_index_In (l : list A) (i : Z) (a : A) :
  py_index l i = Ok a -> In a l.
Proof.
  unfold py_index.
  destruct (_ && _); [|discriminate].
  destruct (nth_error l _) eqn:E; [|discriminate].
  intros [= <-]. eapply nth_error_In; eassumption.
Qed.

Lemma py_index_defined (l : list A) (i : Z) :
  - Z.of_nat (length l) <= i < Z.of_nat (length l) ->
  exists a, py_index l i = Ok a.
Proof.
  unfold py_index; intros Hi.
  set (j := if i <? 0 then i + Z.of_nat (length l) else i).
  assert (Hj : 0 <= j < Z.of_nat (length l)).
  { subst j. destruct (Z.ltb_spec i 0); lia. }
  replace ((0 <=? j) && (j <? Z.of_nat (length l))) with true
    by (symmetry; apply andb_true_iff; split;
        [apply Z.leb_le | apply Z.ltb_lt]; lia).
  destruct (nth_error l (Z.to_nat j)) as [a|] eqn:E; [eexists; reflexivity|].
  apply nth_error_None in E. lia.
Qed.

Lemma row_at_In (l : list A) i a : row_at l i = Ok a -> In a l.
Proof.
  unfold row_at. destruct (nth_error l i) eqn:E; [|discriminate].
  intros [= <-]. eapply nth_error_In; eassumption.
Qed.

Lemma row_at_defined (l : list A) i :
  (i < length l)%nat -> exists a, row_at l i = Ok a.
Proof.
  intros H. unfold row_at.
  destruct (nth_error l i) eqn:E; [eexists; reflexivity|].
  apply nth_error_None in E. lia.
Qed.

End ListFacts.

(** ** The motion feature extractor *)

Section Extractor.

Variable pow_half : Qc -> Qc.
Variable fisher : FisherVectorGMM.
Implicit Types self : PreliminaryClustering (gmm_model fisher).

Lemma removelast_length {A} (l : list A) :
  length (removelast l) = (length l - 1)%nat.
Proof.
  rewrite removelast_firstn_len, length_firstn. lia.
Qed.

Lemma In_removelast {A} (l : list A) x : In x (removelast l) -> In x l.
Proof.
  induction l as [|a l IH]; [auto|].
  destruct l as [|b l]; [contradiction|].
  change (removelast (a :: b :: l)) with (a :: removelast (b :: l)).
  intros [->|H]; [left; reflexivity | right; auto].
Qed.

Lemma In_tl {A} (l : list A) x : In x (tl l) -> In x l.
Proof. destruct l; simpl; auto. Qed.

Lemma nth_error_arange n v :
  (v < Z.to_nat n)%nat -> nth_error (arange n) v = Some (Z.of_nat v).
Proof.
  intros Hv. unfold arange.
  rewrite nth_error_map, nth_error_seq.
  destruct (Nat.ltb_spec v (Z.to_nat n)); [reflexivity | lia].
Qed.

Lemma arange_length n : length (arange n) = Z.to_nat n.
Proof. unfold arange. now rewrite length_map, length_seq. Qed.

Lemma lndk_vel_length L (lndks_centered : matrix) :
  length (lndk_vel pow_half L lndks_centered) = (length lndks_centered - 1)%nat.
Proof.
  unfold lndk_vel. rewrite zip_with_length, removelast_length, length_tl. lia.
Qed.

Lemma center_length L row :
  length row = (L + L)%nat -> length (center L row) = (L + L)%nat.
Proof.
  intros H. unfold center.
  rewrite zip_with_length, length_app, !repeat_length. lia.
Qed.

Lemma frame_velocity_length L a b :
  length a = (L + L)%nat -> length b = (L + L)%nat ->
  length (frame_velocity pow_half L a b) = L.
Proof.
  intros Ha Hb. unfold frame_velocity.
  rewrite !zip_with_length, !length_firstn, !length_skipn. lia.
Qed.

(** The number of rows collected for a video depends on its number of frames
    only. *)
Lemma video_velocities_length self width lndks feats :
  video_velocities pow_half self width lndks = Ok feats ->
  length feats = (length lndks - 2)%nat.
Proof.
  unfold video_velocities.
  destruct (negb _); [discriminate|].
  destruct (negb _); [discriminate|].
  destruct (negb _); [discriminate|].
  intros H. apply mapM_length in H.
  rewrite H, length_tl, lndk_vel_length, length_map. lia.
Qed.

Lemma video_velocities_defined self width lndks :
  (30 < num_lndks self)%nat ->
  width = (num_lndks self + num_lndks self)%nat ->
  Forall (fun row => length row = width) lndks ->
  Forall (fun i => - Z.of_nat (num_lndks self) <= i < Z.of_nat (num_lndks self))
         (selected_lndks_idx self) ->
  exists feats, video_velocities pow_half self width lndks = Ok feats.
Proof.
  intros HL Hw Hrows Hsel. unfold video_velocities.
  replace (30 <? width)%nat with true by (symmetry; apply Nat.ltb_lt; lia).
  replace (30 + num_lndks self <? width)%nat with true
    by (symmetry; apply Nat.ltb_lt; lia).
  replace (width =? num_lndks self + num_lndks self)%nat with true
    by (symmetry; apply Nat.eqb_eq; lia).
  cbv [negb].
  apply mapM_defined. intros row Hrow.
  apply In_tl in Hrow. unfold lndk_vel in Hrow.
  apply zip_with_In in Hrow as (a & b & Ha & Hb & ->).
  apply In_removelast in Ha. apply In_tl in Hb.
  apply in_map_iff in Ha as (ra & <- & Hra).
  apply in_map_iff in Hb as (rb & <- & Hrb).
  rewrite Forall_forall in Hrows.
  assert (Hlen : length (frame_velocity pow_half (num_lndks self)
                           (center (num_lndks self) ra)
                           (center (num_lndks self) rb)) = num_lndks self).
  { apply frame_velocity_length; apply center_length;
      rewrite Hrows by assumption; assumption. }
  apply mapM_defined. intros i Hi.
  apply py_index_defined. rewrite Hlen.
  rewrite Forall_forall in Hsel. auto.
Qed.

Lemma video_lndks_width coord_df seq_num :
  Forall (fun r => length (frame_coords r) = coord_width coord_df)
         (coord_rows coord_df) ->
  Forall (fun row => length row = coord_width coord_df)
         (video_lndks coord_df seq_num).
Proof.
  intros H. unfold video_lndks.
  apply Forall_map, Forall_forall. intros r Hr.
  apply filter_In in Hr as [Hr _].
  rewrite Forall_forall in H. auto.
Qed.

(** C3: when the table of coordinates is well formed for [num_lndks]
    landmarks (more than 30 landmarks, 2 * num_lndks columns) and the selected
    indices are in range, the extractor returns one array per video, and for
    every video with F >= 2 frames the array of consecutive-frame velocities
    has F - 1 rows and the array returned for the video, which collects its
    rows from row 1 on, has F - 2 rows. *)
Theorem motion_feature_count self coord_df seq_df :
  (30 < num_lndks self)%nat ->
  coord_width coord_df = (num_lndks self + num_lndks self)%nat ->
  Forall (fun r => length (frame_coords r) = coord_width coord_df)
         (coord_rows coord_df) ->
  Forall (fun i => - Z.of_nat (num_lndks self) <= i < Z.of_nat (num_lndks self))
         (selected_lndks_idx self) ->
  exists velocities,
    get_velocities_frames pow_half self coord_df seq_df = Ok velocities /\
    length velocities = length seq_df /\
    forall v lndks vel,
      (v < length seq_df)%nat ->
      lndks = video_lndks coord_df (Z.of_nat v) ->
      vel = lndk_vel pow_half (num_lndks self) (map (center (num_lndks self)) lndks) ->
      (2 <= length lndks)%nat ->
      Z.of_nat (length vel) = Z.of_nat (length lndks) - 1 /\
      exists feats,
        nth_error velocities v = Some feats /\
        mapM (fun row => mapM (py_index row) (selected_lndks_idx self)) (tl vel)
          = Ok feats /\
        Z.of_nat (length feats) = Z.of_nat (length lndks) - 2.
Proof.
  intros HL Hw Hrows Hsel.
  destruct (mapM_defined
              (fun seq_num => video_velocities pow_half self (coord_width coord_df)
                                (video_lndks coord_df seq_num))
              (arange (Z.of_nat (length seq_df)))) as (velocities & Hget).
  { intros seq_num _.
    apply video_velocities_defined; auto using video_lndks_width. }
  exists velocities. split; [exact Hget|]. split.
  { apply mapM_length in Hget. rewrite Hget, arange_length. lia. }
  intros v lndks vel Hv -> -> HF. split.
  { rewrite lndk_vel_length, length_map. lia. }
  destruct (mapM_nth_error_src _ _ _ v (Z.of_nat v) Hget) as (feats & Hnth & Hvid).
  { apply nth_error_arange. lia. }
  exists feats. split; [exact Hnth|].
  pose proof (video_velocities_length _ _ _ _ Hvid) as Hlen.
  split; [|lia].
  revert Hvid. unfold video_velocities.
  destruct (negb _); [discriminate|].
  destruct (negb _); [discriminate|].
  destruct (negb _); [discriminate|].
  auto.
Qed.

(** A video of fewer than two frames has no velocity row, and one of fewer
    than three frames yields no feature. *)
Lemma short_video_features self width lndks feats :
  video_velocities pow_half self width lndks = Ok feats ->
  (length lndks <= 2)%nat -> feats = [].
Proof.
  intros H Hlen. apply video_velocities_length in H.
  destruct feats; [reflexivity | simpl in H; lia].
Qed.

Lemma Qc_sub_diag (x : Qc) : (x - x)%Qc = Q2Qc 0.
Proof. ring. Qed.

Lemma center_nose_x L row x :
  (30 < L)%nat -> nth_error (center L row) 30 = Some x -> x = Q2Qc 0.
Proof.
  intros HL H. unfold center in H.
  apply zip_with_nth_error in H as (a & b & Ha & Hb & ->).
  rewrite nth_error_app1 in Hb by (rewrite repeat_length; exact HL).
  rewrite nth_error_repeat in Hb by exact HL.
  injection Hb as <-.
  rewrite (nth_error_nth _ _ _ Ha). apply Qc_sub_diag.
Qed.

Lemma center_nose_y L row y :
  (30 < L)%nat -> nth_error (center L row) (L + 30) = Some y -> y = Q2Qc 0.
Proof.
  intros HL H. unfold center in H.
  apply zip_with_nth_error in H as (a & b & Ha & Hb & ->).
  rewrite nth_error_app2 in Hb by (rewrite repeat_length; lia).
  rewrite repeat_length in Hb.
  replace (L + 30 - L)%nat with 30%nat in Hb by lia.
  rewrite nth_error_repeat in Hb by exact HL.
  replace b with (nth (L + 30) row (Q2Qc 0))
    by (replace (L + 30)%nat with (30 + L)%nat by lia; congruence).
  rewrite (nth_error_nth _ _ _ Ha). apply Qc_sub_diag.
Qed.

Lemma frame_velocity_nose L ra rb y :
  pow_half (Q2Qc 0) = Q2Qc 0 ->
  nth_error (frame_velocity pow_half L (center L ra) (center L rb)) 30 = Some y ->
  y = Q2Qc 0.
Proof.
  intros Hsqrt H. unfold frame_velocity in H.
  apply zip_with_nth_error in H as (dx & dy & Hdx & Hdy & ->).
  apply zip_with_nth_error in Hdx as (ax & bx & Hax & Hbx & ->).
  apply zip_with_nth_error in Hdy as (ay & by_ & Hay & Hby & ->).
  rewrite nth_error_firstn in Hax, Hbx.
  destruct (Nat.ltb_spec 30 L) as [HL|]; [|discriminate].
  rewrite nth_error_skipn in Hay, Hby.
  apply (center_nose_x _ _ _ HL) in Hax, Hbx.
  apply (center_nose_y _ _ _ HL) in Hay, Hby.
  subst. transitivity (pow_half (Q2Qc 0)); [|exact Hsqrt].
  f_equal; unfold square; ring.
Qed.

(** C10: in every array the extractor returns, a column that was selected
    with the nose-tip index 30 is 0 in every row, for every square root that
    maps 0 to 0. *)
Theorem nose_tip_feature_is_zero self coord_df seq_df velocities video row p :
  pow_half (Q2Qc 0) = Q2Qc 0 ->
  get_velocities_frames pow_half self coord_df seq_df = Ok velocities ->
  In video velocities ->
  In row video ->
  nth_error (selected_lndks_idx self) p = Some 30 ->
  nth_error row p = Some (Q2Qc 0).
Proof.
  intros Hsqrt Hget Hvideo Hrow Hp.
  unfold get_velocities_frames in Hget.
  destruct (mapM_In _ _ _ _ Hget Hvideo) as (seq_num & _ & Hvid).
  unfold video_velocities in Hvid.
  destruct (negb _); [discriminate|].
  destruct (negb _); [discriminate|].
  destruct (negb _); [discriminate|].
  destruct (mapM_In _ _ _ _ Hvid Hrow) as (vrow & Hvrow & Hsel).
  destruct (mapM_nth_error_src _ _ _ p _ Hsel Hp) as (y & Hy & Hidx).
  apply py_index_nonneg in Hidx; [|lia].
  apply In_tl in Hvrow. unfold lndk_vel in Hvrow.
  apply zip_with_In in Hvrow as (a & b & Ha & Hb & ->).
  apply In_removelast in Ha. apply In_tl in Hb.
  apply in_map_iff in Ha as (ra & <- & _).
  apply in_map_iff in Hb as (rb & <- & _).
  change (Z.to_nat 30) with 30%nat in Hidx.
  apply (frame_velocity_nose _ _ _ _ Hsqrt) in Hidx.
  congruence.
Qed.

End Extractor.

(** ** The histogram aggregator *)

Section Aggregator.

Variable fisher : FisherVectorGMM.
Implicit Types self : PreliminaryClustering (gmm_model fisher).

Local Open Scope Qc_scope.

Lemma Qc_ltb_lt (x y : Qc) : Qc_ltb x y = true <-> x < y.
Proof.
  unfold Qc_ltb, Qclt. rewrite negb_true_iff. split; intros H.
  - apply Qnot_le_lt. intros Hle. apply Qle_bool_iff in Hle. congruence.
  - apply not_true_is_false. intros Hle. apply Qle_bool_iff in Hle.
    exact (Qlt_not_le _ _ H Hle).
Qed.

Lemma Qc_eq_bool_false (x y : Qc) : x <> y -> Qc_eq_bool x y = false.
Proof.
  intros H. unfold Qc_eq_bool. destruct (Qc_eq_dec x y); [contradiction | reflexivity].
Qed.

Lemma Qc_eq_bool_refl (x : Qc) : Qc_eq_bool x x = true.
Proof.
  unfold Qc_eq_bool. destruct (Qc_eq_dec x x); [reflexivity | contradiction].
Qed.

Lemma Qcdiv_nonneg (x t : Qc) : 0 <= x -> 0 < t -> 0 <= x / t.
Proof.
  intros Hx Ht.
  assert (Hne : t <> 0) by (intros ->; exact (Qclt_not_eq _ _ Ht eq_refl)).
  apply (Qcmult_lt_0_le_reg_r _ _ t Ht).
  replace (0 * t) with 0 by ring.
  replace (x / t * t) with x by (field; exact Hne).
  exact Hx.
Qed.

Lemma Qcplus_nonneg (x y : Qc) : 0 <= x -> 0 <= y -> 0 <= x + y.
Proof.
  intros Hx Hy. replace 0 with (0 + 0) by ring.
  apply Qcplus_le_compat; assumption.
Qed.

Lemma fold_plus_div (t : Qc) (l : list Qc) (a : Qc) :
  fold_left Qcplus (map (fun x => x / t) l) (a / t) = fold_left Qcplus l a / t.
Proof.
  revert a; induction l as [|x l IH]; intros a; simpl; [reflexivity|].
  rewrite <- IH. f_equal. unfold Qcdiv. ring.
Qed.

Lemma fold_plus_nonneg (l : list Qc) (a : Qc) :
  0 <= a -> Forall (fun x => 0 <= x) l -> 0 <= fold_left Qcplus l a.
Proof.
  revert a; induction l as [|x l IH]; intros a Ha Hl; simpl; [exact Ha|].
  inversion Hl; subst. apply IH; [apply Qcplus_nonneg|]; assumption.
Qed.

(** With an exact division, a histogram whose accumulated total is not 0
    consists of finite entries that sum to 1. *)
Lemma normalize_sums_to_one (acc : list Qc) :
  py_sum acc <> 0 ->
  normalize acc = map Finite (map (fun x => x / py_sum acc) acc) /\
  py_sum (map (fun x => x / py_sum acc) acc) = 1.
Proof.
  intros Ht. split.
  - unfold normalize. rewrite map_map. apply map_ext. intros x.
    unfold np_divide. now rewrite Qc_eq_bool_false.
  - unfold py_sum at 1.
    replace (Q2Qc 0) with (Q2Qc 0 / py_sum acc) by (unfold Qcdiv; ring).
    rewrite fold_plus_div. fold (py_sum acc).
    unfold Qcdiv. apply Qcmult_inv_r. exact Ht.
Qed.

Lemma normalize_nonneg (acc : list Qc) :
  py_sum acc <> 0 ->
  Forall (fun x => 0 <= x) acc ->
  Forall (fun x => 0 <= x) (map (fun x => x / py_sum acc) acc).
Proof.
  intros Ht Hacc.
  assert (Hpos : 0 < py_sum acc).
  { destruct (Qcle_lt_or_eq 0 (py_sum acc)) as [H|H]; [|exact H|congruence].
    apply fold_plus_nonneg; [apply Qcle_refl | exact Hacc]. }
  apply Forall_map. revert Hacc. apply Forall_impl.
  intros x Hx. apply Qcdiv_nonneg; assumption.
Qed.

(** The division by a total of 0 yields no finite entry: nan for an entry
    that is 0, an infinity for any other. *)
Lemma normalize_zero_total (acc : list Qc) :
  py_sum acc = 0 ->
  normalize acc = map (fun x => np_divide x 0) acc /\
  Forall (fun v => v = NaN \/ v = PosInf \/ v = NegInf) (normalize acc).
Proof.
  intros Ht. unfold normalize. rewrite Ht. split; [reflexivity|].
  apply Forall_map, Forall_forall. intros x _.
  unfold np_divide. rewrite Qc_eq_bool_refl.
  destruct (Qc_eq_bool x 0); [auto|]. destruct (Qc_ltb 0 x); auto.
Qed.

Lemma add_at_length j x (hist : list Qc) :
  length (add_at j x hist) = length hist.
Proof.
  revert j; induction hist as [|h hist IH]; intros [|j]; simpl; auto.
Qed.

Lemma add_frame_length K frame js hist hist' :
  add_frame K frame js hist = Ok hist' -> length hist' = length hist.
Proof.
  revert hist; induction js as [|j js IH]; intros hist; simpl.
  - now intros [= <-].
  - destruct (row_at frame j); simpl; [|discriminate].
    destruct (row_at frame (j + K)); simpl; [|discriminate].
    intros H. apply IH in H. now rewrite add_at_length in H.
Qed.

Lemma accumulate_length K frames hist hist' :
  accumulate K frames hist = Ok hist' -> length hist' = length hist.
Proof.
  revert hist; induction frames as [|frame frames IH]; intros hist; simpl.
  - now intros [= <-].
  - destruct (add_frame K frame (seq 0 K) hist) as [h|] eqn:E; simpl; [|discriminate].
    intros H. apply IH in H. apply add_frame_length in E. congruence.
Qed.

(** What [video_histogram] returns, in terms of the accumulated array. *)
Lemma video_histogram_Ok K video_fv h :
  video_histogram (KInt K) video_fv = Ok h <->
  (0 <= K)%Z /\
  exists frames acc,
    row_at video_fv 0 = Ok frames /\
    accumulate (Z.to_nat K) frames (repeat (Q2Qc 0) (Z.to_nat K)) = Ok acc /\
    h = normalize acc.
Proof.
  unfold video_histogram.
  destruct (row_at video_fv 0) as [frames|e]; simpl.
  - destruct (Z.ltb_spec K 0); simpl.
    + split; [discriminate | intros [? _]; lia].
    + destruct (accumulate _ frames _) as [acc|e] eqn:E; simpl.
      * split.
        -- intros [= <-]. split; [assumption|]. now exists frames, acc.
        -- intros (_ & frames' & acc' & [= <-] & Hacc & ->). congruence.
      * split; [discriminate|].
        intros (_ & frames' & acc' & [= <-] & Hacc & _). congruence.
  - split; [discriminate|]. intros (_ & ? & ? & ? & _). discriminate.
Qed.

Lemma generate_histograms_int self K fvs :
  n_kernels self = KInt K ->
  generate_histograms self fvs = mapM (video_histogram (KInt K)) fvs.
Proof.
  intros HK. unfold generate_histograms. now rewrite HK.
Qed.

Lemma generate_histograms_length self K fvs hists :
  n_kernels self = KInt K ->
  generate_histograms self fvs = Ok hists ->
  Forall (fun h => Z.of_nat (length h) = K) hists.
Proof.
  intros HK Hgen. rewrite (generate_histograms_int _ _ _ HK) in Hgen.
  apply Forall_forall. intros h Hh.
  destruct (mapM_In _ _ _ _ Hgen Hh) as (video_fv & _ & Hv).
  apply video_histogram_Ok in Hv as (HK0 & frames & acc & _ & Hacc & ->).
  unfold normalize. rewrite length_map.
  apply accumulate_length in Hacc. rewrite Hacc, repeat_length. lia.
Qed.

Lemma add_at_nth j x (hist : list Qc) k :
  (j < length hist)%nat ->
  nth k (add_at j x hist) 0 = if Nat.eqb k j then nth j hist 0 + x else nth k hist 0.
Proof.
  revert j k; induction hist as [|h hist IH]; intros [|j] [|k]; simpl;
    intros Hj; try lia; try reflexivity.
  apply IH. lia.
Qed.

Lemma row_at_nth {T} (l : list T) i x d :
  row_at l i = Ok x -> nth i l d = x.
Proof.
  unfold row_at. destruct (nth_error l i) eqn:E; [|discriminate].
  intros [= <-]. now apply nth_error_nth.
Qed.

(** One pass over the components adds to each the mass of the frame. *)
Lemma add_frame_nth K frame js hist hist' :
  add_frame K frame js hist = Ok hist' ->
  NoDup js ->
  Forall (fun j => (j < length hist)%nat) js ->
  forall k,
    nth k hist' 0 =
    if existsb (Nat.eqb k) js then nth k hist 0 + block_mass K frame k
    else nth k hist 0.
Proof.
  revert hist; induction js as [|j js IH]; intros hist; simpl.
  - intros [= <-] _ _ k. reflexivity.
  - destruct (row_at frame j) as [a|] eqn:Ha; simpl; [|discriminate].
    destruct (row_at frame (j + K)) as [b|] eqn:Hb; simpl; [|discriminate].
    intros H Hnd Hjs k. inversion Hnd as [|? ? Hnotin Hnd']; subst.
    inversion Hjs as [|? ? Hj Hjs']; subst.
    rewrite (IH _ H Hnd') by (rewrite add_at_length; exact Hjs').
    rewrite (add_at_nth _ _ _ _ Hj).
    apply (row_at_nth _ _ _ []) in Ha, Hb.
    destruct (Nat.eqb_spec k j) as [->|Hne]; simpl.
    + replace (existsb (Nat.eqb j) js) with false.
      * unfold block_mass. now rewrite Ha, Hb.
      * symmetry. apply not_true_is_false. intros E.
        apply existsb_exists in E as (x & Hx & Heq).
        apply Nat.eqb_eq in Heq. subst. contradiction.
    + reflexivity.
Qed.

Lemma add_frame_defined K frame js hist :
  Forall (fun j => (j + K < length frame)%nat) js ->
  exists hist', add_frame K frame js hist = Ok hist'.
Proof.
  intros Hjs. revert hist.
  induction Hjs as [|j js Hj _ IH]; intros hist; simpl.
  - eexists; reflexivity.
  - destruct (row_at_defined frame j) as (a & ->); [lia|].
    destruct (row_at_defined frame (j + K) Hj) as (b & ->). simpl. apply IH.
Qed.

Lemma list_eq_map_seq (f : nat -> Qc) (l : list Qc) :
  (forall k, (k < length l)%nat -> nth k l 0 = f k) ->
  l = map f (seq 0 (length l)).
Proof.
  intros H. apply (nth_ext _ _ 0 (f 0%nat)).
  - now rewrite length_map, length_seq.
  - intros k Hk. rewrite (H k Hk).
    rewrite (nth_indep _ (f 0%nat) (f (length l))) by (now rewrite length_map, length_seq).
    rewrite (map_nth f), seq_nth by exact Hk. reflexivity.
Qed.

Lemma existsb_eqb_seq k K : (k < K)%nat -> existsb (Nat.eqb k) (seq 0 K) = true.
Proof.
  intros H. apply existsb_exists. exists k. split; [apply in_seq; lia|].
  apply Nat.eqb_refl.
Qed.

(** The loops compute, for every component, the initial value plus the
    masses of the frames. *)
Lemma accumulate_masses K frames hist acc :
  length hist = K ->
  accumulate K frames hist = Ok acc ->
  acc = map (fun j => fold_left (fun a frame => a + block_mass K frame j)
                                frames (nth j hist 0))
            (seq 0 K).
Proof.
  revert hist; induction frames as [|frame frames IH]; intros hist Hlen; simpl.
  - intros [= <-]. rewrite <- Hlen. apply list_eq_map_seq. reflexivity.
  - destruct (add_frame K frame (seq 0 K) hist) as [h|] eqn:E; simpl; [|discriminate].
    intros H.
    pose proof (add_frame_length _ _ _ _ _ E) as Hlen'.
    rewrite (IH h (eq_trans Hlen' Hlen) H).
    apply map_ext_in. intros j Hj. apply in_seq in Hj. f_equal.
    rewrite (add_frame_nth _ _ _ _ _ E (seq_NoDup K 0)).
    + rewrite existsb_eqb_seq by lia. reflexivity.
    + apply Forall_forall. intros k Hk. apply in_seq in Hk. lia.
Qed.

Lemma accumulate_defined K frames hist :
  Forall (fun frame : matrix => (K + K <= length frame)%nat) frames ->
  exists acc, accumulate K frames hist = Ok acc.
Proof.
  intros H. revert hist.
  induction H as [|frame frames Hf _ IH]; intros hist; simpl.
  - eexists; reflexivity.
  - destruct (add_frame_defined K frame (seq 0 K) hist) as (h & ->).
    { apply Forall_forall. intros j Hj. apply in_seq in Hj. lia. }
    simpl. apply IH.
Qed.

(** What the aggregator returns for an encoding, in terms of the masses. *)
Lemma video_histogram_masses K video_fv h :
  video_histogram (KInt K) video_fv = Ok h ->
  (0 <= K)%Z /\ video_fv <> [] /\ h = normalize (video_masses (Z.to_nat K) video_fv).
Proof.
  intros H.
  apply video_histogram_Ok in H as (HK & frames & acc & Hrow & Hacc & ->).
  split; [exact HK|]. split.
  - intros ->. discriminate.
  - f_equal. unfold video_masses.
    apply accumulate_masses in Hacc; [|apply repeat_length].
    rewrite Hacc, (row_at_nth _ _ _ [] Hrow).
    apply map_ext_in. intros j Hj. apply in_seq in Hj.
    unfold accumulated_mass. f_equal.
    apply nth_repeat_lt. lia.
Qed.

Lemma video_histogram_defined K video_fv :
  (0 <= K)%Z ->
  well_shaped (Z.to_nat K) video_fv ->
  exists h, video_histogram (KInt K) video_fv = Ok h.
Proof.
  intros HK [Hne Hframes].
  destruct video_fv as [|frames rest]; [contradiction|]. simpl in Hframes.
  destruct (accumulate_defined (Z.to_nat K) frames
              (repeat (Q2Qc 0) (Z.to_nat K)) Hframes) as (acc & Hacc).
  exists (normalize acc). apply video_histogram_Ok.
  split; [exact HK|]. now exists frames, acc.
Qed.

(** For encodings with 2 * K rows per frame the aggregator returns, and
    every histogram it returns has K entries and is the normalised array of
    the masses of the K components; when the total of these masses is not 0,
    the entries are finite and sum to 1, and they are non-negative when, in
    addition, no mass is negative. *)
Lemma histogram_normalized self K fvs :
  n_kernels self = KInt K ->
  ((0 <= K)%Z ->
   Forall (well_shaped (Z.to_nat K)) fvs ->
   exists hists, generate_histograms self fvs = Ok hists) /\
  (forall hists,
     generate_histograms self fvs = Ok hists ->
     Forall2
       (fun video_fv h =>
          let acc := video_masses (Z.to_nat K) video_fv in
          h = normalize acc /\
          Z.of_nat (length h) = K /\
          (py_sum acc <> 0 ->
           exists qs,
             h = map Finite qs /\
             py_sum qs = 1 /\
             (Forall (fun x => 0 <= x) acc -> Forall (fun q => 0 <= q) qs)))
       fvs hists).
Proof.
  intros HK. rewrite (generate_histograms_int _ _ _ HK). split.
  - intros HK0 Hshape. apply mapM_defined. intros video_fv Hin.
    rewrite Forall_forall in Hshape.
    apply video_histogram_defined; auto.
  - intros hists Hgen.
    apply mapM_Forall2 in Hgen. revert Hgen. apply Forall2_impl.
    intros video_fv h Hh.
    apply video_histogram_masses in Hh as (HK0 & _ & ->).
    cbv zeta. split; [reflexivity|]. split.
    + unfold normalize, video_masses.
      rewrite !length_map, length_seq. lia.
    + intros Ht. exists (map (fun x => x / py_sum (video_masses (Z.to_nat K) video_fv))
                            (video_masses (Z.to_nat K) video_fv)).
      destruct (normalize_sums_to_one _ Ht) as [Hn Hs].
      split; [exact Hn|]. split; [exact Hs|].
      apply normalize_nonneg. exact Ht.
Qed.

Lemma Forall2_impl_Forall {T U} (P : T -> Prop) (R R' : T -> U -> Prop) l l' :
  (forall x y, P x -> R x y -> R' x y) ->
  Forall2 R l l' -> Forall P l -> Forall2 R' l l'.
Proof.
  intros Himp H; induction H as [|x y l l' Hxy _ IH]; intros HP.
  - constructor.
  - inversion HP; subst. constructor; auto.
Qed.

(** Sums of entries none of which is negative. *)
Lemma fold_plus_map {T} (g : T -> Qc) (l : list T) (a : Qc) :
  fold_left (fun acc x => acc + g x) l a = fold_left Qcplus (map g l) a.
Proof.
  revert a; induction l as [|x l IH]; intros a; simpl; [reflexivity | apply IH].
Qed.

Lemma fold_plus_zero (l : list Qc) (a : Qc) :
  Forall (fun x => x = 0) l -> fold_left Qcplus l a = a.
Proof.
  intros H; revert a; induction H as [|x l -> _ IH]; intros a; simpl.
  - reflexivity.
  - rewrite IH. ring.
Qed.

Lemma py_sum_nonzero_Exists (l : list Qc) :
  py_sum l <> 0 -> Exists (fun x => x <> 0) l.
Proof.
  intros H. apply neg_Forall_Exists_neg.
  - intros x. apply Qc_eq_dec.
  - intros Hall. apply H. unfold py_sum. now apply fold_plus_zero.
Qed.

Lemma fold_plus_pos (l : list Qc) (a : Qc) :
  0 <= a -> Forall (fun x => 0 <= x) l ->
  0 < a \/ Exists (fun x => 0 < x) l ->
  0 < fold_left Qcplus l a.
Proof.
  revert a; induction l as [|x l IH]; intros a Ha Hl Hpos; simpl.
  - destruct Hpos as [Hpos|Hex]; [exact Hpos | inversion Hex].
  - inversion Hl as [|? ? Hx Hl']; subst.
    apply IH; [now apply Qcplus_nonneg | exact Hl' |].
    destruct Hpos as [Hpos|Hex].
    + left. apply Qclt_le_trans with (y := a); [exact Hpos|].
      replace a with (a + 0) at 1 by ring.
      apply Qcplus_le_compat; [apply Qcle_refl | exact Hx].
    + inversion Hex as [? ? Hx0|? ? Hex']; subst; [left | now right].
      apply Qclt_le_trans with (y := x); [exact Hx0|].
      replace x with (0 + x) at 1 by ring.
      apply Qcplus_le_compat; [exact Ha | apply Qcle_refl].
Qed.

Lemma py_sum_nonneg (l : list Qc) :
  Forall (fun x => 0 <= x) l -> 0 <= py_sum l.
Proof. intros H. apply fold_plus_nonneg; [apply Qcle_refl | exact H]. Qed.

Lemma py_sum_pos (l : list Qc) :
  Forall (fun x => 0 <= x) l -> Exists (fun x => 0 < x) l -> 0 < py_sum l.
Proof.
  intros Hl Hex. apply fold_plus_pos; [apply Qcle_refl | exact Hl | now right].
Qed.

(** A frame without negative entry gives no negative mass to a component. *)
Lemma block_mass_nonneg K (frame : matrix) j :
  Forall (Forall (fun x => 0 <= x)) frame -> 0 <= block_mass K frame j.
Proof.
  intros Hf.
  assert (Hrow : forall i, Forall (fun x => 0 <= x) (nth i frame [])).
  { intros i. destruct (nth_in_or_default i frame []) as [Hin| ->]; [|constructor].
    rewrite Forall_forall in Hf. now apply Hf. }
  unfold block_mass. apply Qcplus_nonneg; apply py_sum_nonneg; apply Hrow.
Qed.

Lemma accumulated_mass_sum K (frames : list matrix) j :
  accumulated_mass K frames j = py_sum (map (fun frame => block_mass K frame j) frames).
Proof. unfold accumulated_mass, py_sum. apply fold_plus_map. Qed.

(** The masses of a video without negative entry: none is negative, and
    their total is positive as soon as one frame has a mass that is not 0. *)
Lemma video_masses_nonneg K (video_fv : fisher_vector) :
  nonneg_encoding video_fv ->
  Forall (fun x => 0 <= x) (video_masses K video_fv) /\
  (Exists (fun frame => frame_mass K frame <> 0) (nth 0 video_fv []) ->
   0 < py_sum (video_masses K video_fv)).
Proof.
  intros Hnn.
  assert (Hframes : Forall (Forall (Forall (fun x => 0 <= x))) (nth 0 video_fv [])).
  { destruct (nth_in_or_default 0 video_fv []) as [Hin|E].
    - unfold nonneg_encoding in Hnn. rewrite Forall_forall in Hnn. now apply Hnn.
    - unfold matrix in *. rewrite E. constructor. }
  assert (Hblock : forall j, Forall (fun x => 0 <= x)
                               (map (fun frame => block_mass K frame j) (nth 0 video_fv []))).
  { intros j. apply Forall_map. revert Hframes. apply Forall_impl.
    intros frame Hf. now apply block_mass_nonneg. }
  assert (Hall : Forall (fun x => 0 <= x) (video_masses K video_fv)).
  { unfold video_masses. apply Forall_map, Forall_forall. intros j _.
    rewrite accumulated_mass_sum. apply py_sum_nonneg, Hblock. }
  split; [exact Hall|].
  intros Hex. apply py_sum_pos; [exact Hall|].
  apply Exists_exists in Hex as (frame & Hin & Hmass).
  apply py_sum_nonzero_Exists, Exists_exists in Hmass as (x & Hx & Hne).
  apply in_map_iff in Hx as (j & <- & Hj).
  apply Exists_exists. exists (accumulated_mass K (nth 0 video_fv []) j). split.
  - unfold video_masses. now apply in_map.
  - rewrite accumulated_mass_sum. apply py_sum_pos; [apply Hblock|].
    apply Exists_exists. exists (block_mass K frame j). split.
    + now apply (in_map (fun frame => block_mass K frame j)).
    + destruct (Qcle_lt_or_eq 0 (block_mass K frame j)) as [H|H];
        [|exact H|congruence].
      apply block_mass_nonneg. rewrite Forall_forall in Hframes. now apply Hframes.
Qed.

(** C1: the aggregator is given the encodings [predict] returned, which have
    no negative entry.  For such encodings with 2 * K rows per frame it
    returns, and every histogram it produces has K entries; for a video
    with at least one frame whose gradient mass is not 0 these entries are
    finite, none is negative, and they sum to 1. *)
Theorem histogram_nonnegative_sums_to_one self K fvs :
  n_kernels self = KInt K ->
  Forall nonneg_encoding fvs ->
  ((0 <= K)%Z ->
   Forall (well_shaped (Z.to_nat K)) fvs ->
   exists hists, generate_histograms self fvs = Ok hists) /\
  (forall hists,
     generate_histograms self fvs = Ok hists ->
     Forall2
       (fun video_fv h =>
          Z.of_nat (length h) = K /\
          (Exists (fun frame => frame_mass (Z.to_nat K) frame <> 0)
                  (nth 0 video_fv []) ->
           exists qs,
             h = map Finite qs /\
             Forall (fun q => 0 <= q) qs /\
             py_sum qs = 1))
       fvs hists).
Proof.
  intros HK Hnn.
  destruct (histogram_normalized self K fvs HK) as [Hdef Hprop].
  split; [exact Hdef|].
  intros hists Hgen. specialize (Hprop hists Hgen).
  refine (Forall2_impl_Forall _ _ _ _ _ _ Hprop Hnn).
  intros video_fv h Hv (_ & Hlen & Hsum).
  split; [exact Hlen|]. intros Hex.
  destruct (video_masses_nonneg (Z.to_nat K) video_fv Hv) as [Hall Hpos].
  specialize (Hpos Hex).
  destruct Hsum as (qs & Hh & Hone & Hq).
  { intros E. rewrite E in Hpos. exact (Qclt_not_eq _ _ Hpos eq_refl). }
  exists qs. split; [exact Hh|]. split; [exact (Hq Hall) | exact Hone].
Qed.

(** C8 (amended): for encodings with 2 * K rows per frame the aggregator
    returns the normalised arrays of masses and raises nothing; a video whose
    masses have total 0 gets the results of the divisions by 0, none of which
    is finite. *)
Theorem zero_mass_histogram self K fvs :
  n_kernels self = KInt K ->
  (0 <= K)%Z ->
  Forall (well_shaped (Z.to_nat K)) fvs ->
  generate_histograms self fvs
    = Ok (map (fun video_fv => normalize (video_masses (Z.to_nat K) video_fv)) fvs) /\
  forall video_fv,
    In video_fv fvs ->
    py_sum (video_masses (Z.to_nat K) video_fv) = 0 ->
    let acc := video_masses (Z.to_nat K) video_fv in
    normalize acc = map (fun x => np_divide x 0) acc /\
    Forall (fun v => v = NaN \/ v = PosInf \/ v = NegInf) (normalize acc).
Proof.
  intros HK HK0 Hshape. split.
  - rewrite (generate_histograms_int _ _ _ HK).
    apply mapM_Forall2.
    induction Hshape as [|video_fv fvs Hs _ IH]; simpl; constructor; [|exact IH].
    destruct (video_histogram_defined K video_fv HK0 Hs) as (h & Hh).
    rewrite Hh. f_equal.
    apply video_histogram_masses in Hh as (_ & _ & ->). reflexivity.
  - intros video_fv _ Ht. cbv zeta. apply normalize_zero_total. exact Ht.
Qed.

End Aggregator.

(** ** The partitioner *)

Section Partitioner.

Variable fisher : FisherVectorGMM.
Implicit Types self : PreliminaryClustering (gmm_model fisher).

Lemma mem_In j l : mem j l = true <-> In j l.
Proof.
  unfold mem. rewrite existsb_exists. split.
  - intros (x & Hx & Heq). apply Z.eqb_eq in Heq. now subst.
  - intros H. exists j. split; [exact H | apply Z.eqb_refl].
Qed.

Lemma mem_false j l : mem j l = false <-> ~ In j l.
Proof.
  rewrite <- mem_In. destruct (mem j l); split; congruence.
Qed.

Lemma In_arange K j : In j (arange K) <-> 0 <= j < K.
Proof.
  unfold arange. rewrite in_map_iff. split.
  - intros (n & <- & Hn). apply in_seq in Hn. lia.
  - intros Hj. exists (Z.to_nat j). split; [lia|]. apply in_seq. lia.
Qed.

Lemma NoDup_arange K : NoDup (arange K).
Proof.
  unfold arange. apply Injective_map_NoDup; [|apply seq_NoDup].
  intros x y. lia.
Qed.

(** A larger threshold is exceeded by fewer values. *)
Lemma fval_gtb_antitone h (t1 t2 : Qc) :
  (t1 < t2)%Qc -> fval_gtb h t2 = true -> fval_gtb h t1 = true.
Proof.
  intros Ht. destruct h as [q| | |]; simpl; auto.
  rewrite !Qc_ltb_lt. intros H. eapply Qclt_trans; eassumption.
Qed.

(** The comparison is strict. *)
Lemma fval_gtb_irrefl (t : Qc) : fval_gtb (Finite t) t = false.
Proof.
  simpl. apply not_true_is_false. rewrite Qc_ltb_lt.
  intros H. exact (Qclt_not_eq _ _ H eq_refl).
Qed.

Lemma mark_neutral_spec t hist js neutral neutral' :
  mark_neutral (TScalar t) hist js neutral = Ok neutral' ->
  (forall j, In j neutral' <-> In j neutral \/ (In j js /\ exceeds_at t hist j)) /\
  (NoDup neutral -> NoDup neutral').
Proof.
  revert neutral; induction js as [|j js IH]; intros neutral; simpl.
  - intros [= <-]. split; [|auto]. intros j. tauto.
  - destruct (row_at hist (Z.to_nat j)) as [h|] eqn:Hrow; simpl; [|discriminate].
    intros H. apply IH in H as [Hin Hnd]. split.
    + intros k. rewrite Hin. clear Hin Hnd.
      destruct (fval_gtb h t) eqn:Hgt; simpl.
      * destruct (mem j neutral) eqn:Hmem; simpl.
        -- apply mem_In in Hmem. split.
           ++ intros [?|[? ?]]; auto.
           ++ intros [?|[[<-|?] ?]]; auto.
        -- rewrite in_app_iff. simpl. split.
           ++ intros [[?|[<-|[]]]|[? ?]]; auto.
              right. split; [auto|]. now exists h.
           ++ intros [?|[[<-|?] ?]]; auto.
      * split.
        -- intros [?|[? ?]]; auto.
        -- intros [?|[[<-|?] Hex]]; auto.
           destruct Hex as (h' & Hrow' & Hgt'). congruence.
    + intros Hn. apply Hnd.
      destruct (fval_gtb h t && negb (mem j neutral)) eqn:E; [|exact Hn].
      apply andb_true_iff in E as [_ E]. apply negb_true_iff, mem_false in E.
      apply NoDup_app; [exact Hn | repeat constructor; simpl; tauto |].
      intros x Hx [<-|[]]. contradiction.
Qed.

Lemma scan_training_spec self seq_df histograms t K train neutral neutral' :
  threshold_neutral self = TScalar t ->
  n_kernels self = KInt K ->
  scan_training self seq_df histograms train neutral = Ok neutral' ->
  (forall j, In j neutral' <->
             In j neutral \/ marked seq_df histograms train t K j) /\
  (NoDup neutral -> NoDup neutral').
Proof.
  intros Ht HK.
  revert neutral; induction train as [|seq_num train IH]; intros neutral; simpl.
  - intros [= <-]. split; [|auto].
    intros j. split; [auto|]. intros [?|(? & ? & [] & _)]; auto.
  - destruct (py_index seq_df seq_num) as [vas|] eqn:Hvas; simpl; [|discriminate].
    destruct (Z.eqb_spec vas 0) as [->|Hne].
    + destruct (py_index histograms seq_num) as [hist|] eqn:Hhist; simpl;
        [|discriminate].
      rewrite HK, Ht. simpl.
      destruct (mark_neutral (TScalar t) hist (arange K) neutral) as [n1|] eqn:Hm;
        simpl; [|discriminate].
      intros H. apply IH in H as [Hin Hnd].
      apply mark_neutral_spec in Hm as [Hin1 Hnd1]. split; [|auto].
      intros j. rewrite Hin, Hin1. split.
      * intros [[?|[Hj Hex]]|(s & hs & Hs & Hrest)]; auto.
        -- right. exists seq_num, hist. apply In_arange in Hj. simpl; auto 6.
        -- right. exists s, hs. simpl; auto.
      * intros [?|(s & hs & [<-|Hs] & Hv & Hh & Hj & Hex)]; auto.
        -- left. right. split; [now apply In_arange|]. congruence.
        -- right. exists s, hs. auto 6.
    + simpl. intros H. apply IH in H as [Hin Hnd]. split; [|auto].
      intros j. rewrite Hin. split.
      * intros [?|(s & hs & Hs & Hrest)]; auto.
        right. exists s, hs. simpl; auto.
      * intros [?|(s & hs & [<-|Hs] & Hv & Hrest)]; auto.
        -- congruence.
        -- right. exists s, hs. auto.
Qed.

(** The neutral indices are those marked, without repetition, and the
    relevant ones are the others of [0, K). *)
Lemma extract_spec self seq_df histograms t K rel neu :
  threshold_neutral self = TScalar t ->
  n_kernels self = KInt K ->
  extract_relevant_and_neutral_configurations self seq_df histograms = Ok (rel, neu) ->
  (forall j, In j neu <-> marked seq_df histograms (train_video_idx self) t K j) /\
  NoDup neu /\
  rel = filter (fun x => negb (mem x neu)) (arange K).
Proof.
  intros Ht HK. unfold extract_relevant_and_neutral_configurations.
  destruct (scan_training _ _ _ _ _) as [n|] eqn:Hscan; simpl; [|discriminate].
  rewrite HK. simpl. intros [= <- <-].
  apply (scan_training_spec _ _ _ _ _ _ _ _ Ht HK) in Hscan as [Hin Hnd].
  split; [|split; [apply Hnd; constructor | reflexivity]].
  intros j. rewrite Hin. simpl. tauto.
Qed.

Lemma mark_neutral_defined t hist js neutral :
  Forall (fun j => (Z.to_nat j < length hist)%nat) js ->
  exists neutral', mark_neutral (TScalar t) hist js neutral = Ok neutral'.
Proof.
  intros Hjs. revert neutral.
  induction Hjs as [|j js Hj _ IH]; intros neutral; simpl.
  - eexists; reflexivity.
  - destruct (row_at_defined hist _ Hj) as (h & ->). simpl. apply IH.
Qed.

Lemma scan_training_defined self seq_df histograms t K train neutral :
  threshold_neutral self = TScalar t ->
  n_kernels self = KInt K ->
  length histograms = length seq_df ->
  Forall (fun hist => Z.of_nat (length hist) = Z.max 0 K) histograms ->
  Forall (fun i => - Z.of_nat (length seq_df) <= i < Z.of_nat (length seq_df)) train ->
  exists neutral',
    scan_training self seq_df histograms train neutral = Ok neutral'.
Proof.
  intros Ht HK Hlen Hhists Htrain. revert neutral.
  induction Htrain as [|seq_num train Hs _ IH]; intros neutral; simpl.
  - eexists; reflexivity.
  - destruct (py_index_defined seq_df seq_num Hs) as (vas & ->). simpl.
    destruct (vas =? 0); [|simpl; apply IH].
    destruct (py_index_defined histograms seq_num) as (hist & Hhist);
      [rewrite Hlen; exact Hs|].
    rewrite Hhist, HK, Ht. simpl.
    destruct (mark_neutral_defined t hist (arange K) neutral) as (n1 & ->).
    { apply Forall_forall. intros j Hj. apply In_arange in Hj.
      apply py_index_In in Hhist.
      rewrite Forall_forall in Hhists. specialize (Hhists _ Hhist). lia. }
    simpl. apply IH.
Qed.

Lemma filter_length_le {A} (f g : A -> bool) (l : list A) :
  (forall x, In x l -> f x = true -> g x = true) ->
  (length (filter f l) <= length (filter g l))%nat.
Proof.
  induction l as [|x l IH]; simpl; intros H; [lia|].
  assert (IH' := IH (fun y Hy => H y (or_intror Hy))).
  destruct (f x) eqn:Hf.
  - rewrite (H x (or_introl eq_refl) Hf). simpl. lia.
  - destruct (g x); simpl; lia.
Qed.

Lemma filter_all {A} (f : A -> bool) (l : list A) :
  (forall x, In x l -> f x = true) -> filter f l = l.
Proof.
  induction l as [|x l IH]; simpl; intros H; [reflexivity|].
  rewrite (H x (or_introl eq_refl)), IH; auto.
Qed.

(** C5: with a scalar threshold and K kernels, the two lists the partitioner
    returns have no repetition, share no index and together hold exactly the
    indices 0 .. K-1; the neutral list is empty, and the relevant one is the
    whole range, when no training video has label 0 or no histogram entry
    exceeds the threshold.  The partitioner does return when there is one
    histogram of K entries per video and the training indices are in range. *)
Theorem partition_covers_range self seq_df histograms t K :
  threshold_neutral self = TScalar t ->
  n_kernels self = KInt K ->
  (length histograms = length seq_df ->
   Forall (fun hist => Z.of_nat (length hist) = Z.max 0 K) histograms ->
   Forall (fun i => - Z.of_nat (length seq_df) <= i < Z.of_nat (length seq_df))
          (train_video_idx self) ->
   exists rel neu,
     extract_relevant_and_neutral_configurations self seq_df histograms
       = Ok (rel, neu)) /\
  (forall rel neu,
     extract_relevant_and_neutral_configurations self seq_df histograms
       = Ok (rel, neu) ->
     NoDup neu /\ NoDup rel /\
     (forall j, ~ (In j neu /\ In j rel)) /\
     (forall j, In j neu \/ In j rel <-> 0 <= j < K) /\
     ((forall seq_num, In seq_num (train_video_idx self) ->
                       py_index seq_df seq_num <> Ok 0) \/
      (forall hist h, In hist histograms -> In h hist -> fval_gtb h t = false) ->
      neu = [] /\ rel = arange K)).
Proof.
  intros Ht HK. split.
  - intros Hlen Hhists Htrain.
    unfold extract_relevant_and_neutral_configurations.
    destruct (scan_training_defined self seq_df histograms t K
                (train_video_idx self) [] Ht HK Hlen Hhists Htrain) as (neu & ->).
    rewrite HK. simpl. eexists _, _; reflexivity.
  - intros rel neu H.
    apply (extract_spec _ _ _ _ _ _ _ Ht HK) in H as (Hin & Hnd & ->).
    split; [exact Hnd|]. split; [apply NoDup_filter, NoDup_arange|].
    split; [|split].
    + intros j [Hn Hr]. apply filter_In in Hr as [_ Hr].
      apply negb_true_iff, mem_false in Hr. contradiction.
    + intros j. rewrite filter_In, In_arange, negb_true_iff, mem_false. split.
      * intros [Hn|[Hj _]]; [|exact Hj].
        apply Hin in Hn as (? & ? & _ & _ & _ & Hj & _). exact Hj.
      * intros Hj. destruct (in_dec Z.eq_dec j neu); auto.
    + intros Hnone.
      assert (Hempty : neu = []).
      { destruct neu as [|j neu]; [reflexivity|]. exfalso.
        destruct (proj1 (Hin j) (or_introl eq_refl))
          as (s & hist & Hs & Hv & Hh & _ & h & Hrow & Hgt).
        destruct Hnone as [Hlab|Hlow].
        - exact (Hlab s Hs Hv).
        - apply py_index_In in Hh. apply row_at_In in Hrow.
          rewrite (Hlow hist h Hh Hrow) in Hgt. discriminate. }
      split; [exact Hempty|]. subst neu. apply filter_all. reflexivity.
Qed.

(** C6: a component is neutral exactly when its value is above the
    threshold, strictly, in a training video of label 0: a component whose
    value equals the threshold in every such video is not neutral.  Of two
    thresholds the larger one gives at least as many relevant components. *)
Theorem threshold_strict_and_monotone self seq_df histograms K
    (t1 t2 : Qc) rel1 neu1 rel2 neu2 :
  (t1 < t2)%Qc ->
  extract_relevant_and_neutral_configurations
    (set_threshold_and_kernels (TScalar t1) (KInt K) self) seq_df histograms
    = Ok (rel1, neu1) ->
  extract_relevant_and_neutral_configurations
    (set_threshold_and_kernels (TScalar t2) (KInt K) self) seq_df histograms
    = Ok (rel2, neu2) ->
  (forall j, In j neu1 <->
             marked seq_df histograms (train_video_idx self) t1 K j) /\
  (forall j,
     (forall seq_num hist,
        In seq_num (train_video_idx self) ->
        py_index seq_df seq_num = Ok 0 ->
        py_index histograms seq_num = Ok hist ->
        row_at hist (Z.to_nat j) = Ok (Finite t1)) ->
     ~ In j neu1) /\
  (length rel1 <= length rel2)%nat.
Proof.
  intros Hlt H1 H2.
  apply (extract_spec _ _ _ t1 K) in H1 as (Hin1 & _ & ->); [|reflexivity..].
  apply (extract_spec _ _ _ t2 K) in H2 as (Hin2 & _ & ->); [|reflexivity..].
  simpl in Hin1, Hin2. split; [exact Hin1|]. split.
  - intros j Heq Hj.
    apply Hin1 in Hj as (s & hist & Hs & Hv & Hh & _ & h & Hrow & Hgt).
    rewrite (Heq s hist Hs Hv Hh) in Hrow. injection Hrow as <-.
    rewrite fval_gtb_irrefl in Hgt. discriminate.
  - apply filter_length_le. intros j _.
    rewrite !negb_true_iff, !mem_false. intros Hn1 Hn2. apply Hn1.
    apply Hin1. apply Hin2 in Hn2 as (s & hist & Hs & Hv & Hh & Hj & h & Hrow & Hgt).
    exists s, hist. repeat (split; [assumption|]).
    exists h. split; [exact Hrow|]. eapply fval_gtb_antitone; eassumption.
Qed.

End Partitioner.

(** ** The training tensor *)

Section TensorBuilder.

Variable fisher : FisherVectorGMM.
Implicit Types self : PreliminaryClustering (gmm_model fisher).

Lemma assign_row_length D src r : assign_row D src = Ok r -> length r = D.
Proof.
  unfold assign_row. destruct (Nat.eqb_spec (length src) D).
  - intros [= <-]. assumption.
  - destruct src as [|x [|y src]]; try discriminate.
    intros [= <-]. apply repeat_length.
Qed.

Lemma assign_row_same D src : length src = D -> assign_row D src = Ok src.
Proof.
  intros H. unfold assign_row. now rewrite (proj2 (Nat.eqb_eq _ _) H).
Qed.

Lemma mapM_assign_row_same D (video : matrix) :
  Forall (fun frame => length frame = D) video ->
  mapM (assign_row D) video = Ok video.
Proof.
  intros H. apply mapM_Forall2.
  induction H; constructor; auto using assign_row_same.
Qed.

Lemma list_sum_lengths_Forall2 {A B} (R : list A -> list B -> Prop) l m :
  (forall a b, R a b -> length b = length a) ->
  Forall2 R l m ->
  list_sum (map (@length _) m) = list_sum (map (@length _) l).
Proof.
  intros HR H. induction H as [|a b l m Hab _ IH]; simpl; [reflexivity|].
  rewrite (HR _ _ Hab), IH. reflexivity.
Qed.

Lemma assigned_rows_dim D (tv rowss : list matrix) :
  Forall2 (fun video rows => mapM (assign_row D) video = Ok rows) tv rowss ->
  Forall (Forall (fun r => length r = D)) rowss.
Proof.
  induction 1 as [|video rows tv rowss Hv _ IH]; constructor; [|exact IH].
  apply Forall_forall. intros r Hr.
  destruct (mapM_In _ _ _ _ Hv Hr) as (src & _ & Hsrc).
  exact (assign_row_length _ _ _ Hsrc).
Qed.

(** C9: the tensor built for the fit has shape
    (1, total_training_frames, 1, feature_dim), with feature_dim the number
    of selected landmarks and total_training_frames the sum of the numbers
    of rows of the training videos; it holds that many rows of feature_dim
    cells, and when the rows of the videos have feature_dim cells, as the
    extractor makes them, these are the rows of the training videos, in the
    order of the training indices and then of the frames. *)
Theorem training_tensor_layout self (velocities train_velocities : list matrix) :
  mapM (py_index velocities) (train_video_idx self) = Ok train_velocities ->
  let total_training_frames := list_sum (map (@length _) train_velocities) in
  let feature_dim := length (selected_lndks_idx self) in
  (forall X,
     prepare_training_features self velocities = Ok X ->
     shape4 X = (1, total_training_frames, 1, feature_dim)%nat /\
     exists rows,
       cells4 X = [map (fun r => [r]) rows] /\
       length rows = total_training_frames /\
       Forall (fun r => length r = feature_dim) rows) /\
  (Forall (Forall (fun frame => length frame = feature_dim)) train_velocities ->
   prepare_training_features self velocities =
     Ok {| shape4 := (1, total_training_frames, 1, feature_dim)%nat;
           cells4 := [map (fun r => [r]) (concat train_velocities)] |}).
Proof.
  intros Htrain N D.
  assert (Hrows : forall rowss,
             mapM (training_rows self velocities) (train_video_idx self) = Ok rowss ->
             Forall2 (fun video rows => mapM (assign_row D) video = Ok rows)
                     train_velocities rowss).
  { apply mapM_Forall2 in Htrain. intros rowss H. apply mapM_Forall2 in H.
    revert rowss H. induction Htrain as [|i video idx tv Hi _ IH]; intros rowss H.
    - inversion H. constructor.
    - inversion H as [|? rows ? rowss' Hr Hrest]; subst.
      constructor; [|apply IH; exact Hrest].
      unfold training_rows in Hr. rewrite Hi in Hr. exact Hr. }
  split.
  - intros X. unfold prepare_training_features. rewrite Htrain. simpl.
    destruct (mapM (training_rows self velocities) (train_video_idx self))
      as [rowss|] eqn:E; simpl; [|discriminate].
    intros [= <-]. simpl. split; [reflexivity|].
    specialize (Hrows _ eq_refl).
    exists (concat rowss). split; [reflexivity|]. split.
    + rewrite length_concat. subst N.
      apply (list_sum_lengths_Forall2 _ _ _ (fun a b H => mapM_length _ _ _ H) Hrows).
    + apply Forall_concat. exact (assigned_rows_dim _ _ _ Hrows).
  - intros Hdim. unfold prepare_training_features. rewrite Htrain. simpl.
    replace (mapM (training_rows self velocities) (train_video_idx self))
      with (Ok train_velocities); [reflexivity|].
    symmetry. apply mapM_Forall2 in Htrain. apply mapM_Forall2.
    clear Hrows. subst N. revert Hdim.
    induction Htrain as [|i video idx tv Hi _ IH]; intros Hdim; [constructor|].
    inversion Hdim; subst. constructor; [|apply IH; assumption].
    unfold training_rows. rewrite Hi. simpl.
    now apply mapM_assign_row_same.
Qed.

End TensorBuilder.

(** ** The feature scaler *)

Section Scaler.

Variable scaler : RobustScaler.
Variable fisher : FisherVectorGMM.
Implicit Types self : PreliminaryClustering (gmm_model fisher).

(** The calls [scale_features] makes, and what it returns. *)
Lemma scale_features_eq self (velocities : list matrix) tr :
  scale_features scaler self velocities tr =
  match features_train_frames self velocities with
  | Raise e => (Raise e, tr)
  | Ok train =>
      match scaler_fit scaler train with
      | Raise e => (Raise e, tr ++ [CallScalerFit train])
      | Ok fitted =>
          let tr' := (tr ++ [CallScalerFit train])
                        ++ [CallScalerTransform (concat velocities)] in
          match scaler_transform scaler fitted (concat velocities) with
          | Raise e => (Raise e, tr')
          | Ok scaled => (write_back scaled 0 velocities, tr')
          end
      end
  end.
Proof.
  unfold scale_features, mbind, lift, call.
  destruct (features_train_frames self velocities) as [train|]; [|reflexivity].
  destruct (scaler_fit scaler train) as [fitted|]; [|reflexivity].
  destruct (scaler_transform scaler fitted (concat velocities)); reflexivity.
Qed.

Lemma features_train_frames_agree self (v1 v2 : list matrix) :
  (forall i, In i (train_video_idx self) -> py_index v1 i = py_index v2 i) ->
  features_train_frames self v1 = features_train_frames self v2.
Proof.
  intros H. unfold features_train_frames.
  now rewrite (mapM_ext (py_index v1) (py_index v2) _ H).
Qed.

Lemma scaler_fit_calls_app tr1 tr2 :
  scaler_fit_calls (tr1 ++ tr2) = scaler_fit_calls tr1 ++ scaler_fit_calls tr2.
Proof. unfold scaler_fit_calls. apply flat_map_app. Qed.

Lemma skipn_nth_error {A} (l : list A) c x :
  nth_error l c = Some x -> skipn c l = x :: skipn (S c) l.
Proof.
  revert l; induction c as [|c IH]; intros [|y l]; simpl; try discriminate.
  - now intros [= ->].
  - intros H. now rewrite (IH _ H).
Qed.

Lemma combine_app_l {A B} (a b : list A) (s : list B) :
  (length a <= length s)%nat ->
  combine (a ++ b) s = combine a s ++ combine b (skipn (length a) s).
Proof.
  revert s; induction a as [|x a IH]; intros s Hs; simpl; [reflexivity|].
  destruct s as [|y s]; simpl in *; [lia|].
  rewrite IH by lia. reflexivity.
Qed.

Lemma write_back_video_spec scaled c (video rows : matrix) c' :
  write_back_video scaled c video = Ok (rows, c') ->
  c' = (c + length video)%nat /\
  (length video <= length (skipn c scaled))%nat /\
  Forall2 same_width video rows /\
  Forall2 written_from (combine video (skipn c scaled)) rows.
Proof.
  revert c rows c'; induction video as [|old video IH]; intros c rows c'; simpl.
  - intros [= <- <-]. repeat split; try constructor; simpl; lia.
  - destruct (nth_error scaled c) as [src|] eqn:Hsrc; simpl; [|discriminate].
    destruct (assign_row (length old) src) as [new|] eqn:Hnew; simpl; [|discriminate].
    destruct (write_back_video scaled (S c) video) as [[rows' c'']|] eqn:Hrec;
      simpl; [|discriminate].
    intros [= <- <-].
    apply IH in Hrec as (-> & Hlen & Hshape & Hfrom).
    rewrite (skipn_nth_error _ _ _ Hsrc). cbn [combine length].
    repeat split; [lia | lia | |].
    + constructor; [|exact Hshape]. exact (assign_row_length _ _ _ Hnew).
    + constructor; [exact Hnew | exact Hfrom].
Qed.

Lemma write_back_spec scaled c (velocities out : list matrix) :
  write_back scaled c velocities = Ok out ->
  Forall2 (Forall2 same_width) velocities out /\
  (length (concat velocities) <= length (skipn c scaled))%nat /\
  Forall2 written_from (combine (concat velocities) (skipn c scaled)) (concat out).
Proof.
  revert c out; induction velocities as [|video velocities IH]; intros c out; simpl.
  - intros [= <-]. repeat split; try constructor; simpl; lia.
  - destruct (write_back_video scaled c video) as [[rows c']|] eqn:Hvid;
      simpl; [|discriminate].
    destruct (write_back scaled c' velocities) as [out'|] eqn:Hrec;
      simpl; [|discriminate].
    intros [= <-].
    apply write_back_video_spec in Hvid as (-> & Hlen & Hshape & Hfrom).
    apply IH in Hrec as (Hshapes & Hlen' & Hfrom').
    replace (skipn (c + length video) scaled)
      with (skipn (length video) (skipn c scaled)) in Hlen', Hfrom'
      by (rewrite skipn_skipn; f_equal; lia).
    rewrite length_skipn in Hlen'.
    repeat split.
    + constructor; assumption.
    + rewrite length_app. lia.
    + simpl. rewrite combine_app_l by exact Hlen.
      apply Forall2_app; assumption.
Qed.

Lemma written_from_same_width (olds srcs news : matrix) :
  Forall2 same_width olds srcs ->
  Forall2 written_from (combine olds srcs) news ->
  news = srcs.
Proof.
  intros H; revert news.
  induction H as [|old src olds srcs Hw _ IH]; intros news Hn; simpl in Hn.
  - now inversion Hn.
  - inversion Hn as [|? new ? news' Hnew Hrest]; subst.
    unfold written_from in Hnew. simpl in Hnew.
    rewrite assign_row_same in Hnew by exact Hw.
    injection Hnew as <-. f_equal. apply IH. exact Hrest.
Qed.

(** C4: the scaler is fitted once, on the rows of the training videos: two
    inputs that agree on the training videos give the same training matrix,
    hence the same call of [fit] and the same fitted statistics.  The arrays
    returned have the shape of the arrays given, video by video and frame by
    frame, and each row is written from the row of the transformed matrix at
    the same position in the flat order (it is that row when the transform
    keeps the width of the rows). *)
Theorem scaler_sees_training_only self (v1 v2 : list matrix) :
  (forall i, In i (train_video_idx self) -> py_index v1 i = py_index v2 i) ->
  (features_train_frames self v1 = features_train_frames self v2 /\
   rbind (features_train_frames self v1) (scaler_fit scaler)
     = rbind (features_train_frames self v2) (scaler_fit scaler) /\
   scaler_fit_calls (snd (scale_features scaler self v1 []))
     = scaler_fit_calls (snd (scale_features scaler self v2 [])) /\
   (forall train, features_train_frames self v1 = Ok train ->
      scaler_fit_calls (snd (scale_features scaler self v1 [])) = [train])) /\
  (forall out tr tr',
     scale_features scaler self v1 tr = (Ok out, tr') ->
     exists train fitted scaled,
       features_train_frames self v1 = Ok train /\
       scaler_fit scaler train = Ok fitted /\
       scaler_transform scaler fitted (concat v1) = Ok scaled /\
       Forall2 (Forall2 same_width) v1 out /\
       Forall2 written_from (combine (concat v1) scaled) (concat out) /\
       (Forall2 same_width (concat v1) scaled -> concat out = scaled)).
Proof.
  intros Hagree.
  pose proof (features_train_frames_agree self v1 v2 Hagree) as Htrain.
  assert (Hcalls : forall v,
             scaler_fit_calls (snd (scale_features scaler self v [])) =
             match features_train_frames self v with
             | Ok train => [train]
             | Raise _ => []
             end).
  { intros v. rewrite scale_features_eq.
    destruct (features_train_frames self v) as [train|]; [|reflexivity].
    destruct (scaler_fit scaler train) as [fitted|]; [|reflexivity].
    destruct (scaler_transform scaler fitted (concat v)); reflexivity. }
  split; [repeat split|].
  - exact Htrain.
  - now rewrite Htrain.
  - now rewrite !Hcalls, Htrain.
  - intros train H. now rewrite Hcalls, H.
  - intros out tr tr'. rewrite scale_features_eq.
    destruct (features_train_frames self v1) as [train|] eqn:E1; [|discriminate].
    destruct (scaler_fit scaler train) as [fitted|] eqn:E2; [|discriminate].
    destruct (scaler_transform scaler fitted (concat v1)) as [scaled|] eqn:E3;
      [|discriminate].
    cbv zeta. intros [= Hwb _].
    apply write_back_spec in Hwb as (Hshape & _ & Hfrom). simpl in Hfrom.
    exists train, fitted, scaled.
    split; [reflexivity|]. split; [exact E2|]. split; [exact E3|].
    split; [exact Hshape|]. split; [exact Hfrom|].
    intros Hw. exact (written_from_same_width _ _ _ Hw Hfrom).
Qed.

End Scaler.

(** ** The fit and the whole run *)

Section Orchestrator.

Variable pow_half : Qc -> Qc.
Variable scaler : RobustScaler.
Variable fisher : FisherVectorGMM.
Implicit Types self : PreliminaryClustering (gmm_model fisher).

(** [list.index] returns the first position of the value. *)
Lemma list_index_first (ks : list Z) (k : Z) (i : nat) :
  nth_error ks i = Some k ->
  (forall j, (j < i)%nat -> nth_error ks j <> Some k) ->
  list_index ks k = Ok (Z.of_nat i).
Proof.
  revert i; induction ks as [|y ks IH]; intros [|i]; simpl; try discriminate.
  - intros [= ->] _. now rewrite Z.eqb_refl.
  - intros Hi Hfirst.
    destruct (Z.eqb_spec y k) as [->|_].
    + exfalso. apply (Hfirst 0%nat); [lia | reflexivity].
    + rewrite (IH i Hi); [simpl; f_equal; lia|].
      intros j Hj. apply (Hfirst (S j)). lia.
Qed.

Lemma py_index_nth {A} (l : list A) (i : nat) (a : A) :
  nth_error l i = Some a -> py_index l (Z.of_nat i) = Ok a.
Proof.
  intros H. unfold py_index.
  assert (Hlt : (i < length l)%nat) by (apply nth_error_Some; congruence).
  destruct (Z.ltb_spec (Z.of_nat i) 0); [lia|].
  replace ((0 <=? Z.of_nat i) && (Z.of_nat i <? Z.of_nat (length l))) with true
    by (symmetry; apply andb_true_iff; split;
        [apply Z.leb_le | apply Z.ltb_lt]; lia).
  now rewrite Nat2Z.id, H.
Qed.

(** The stages of a run, one after the other. *)
Lemma execute_eq self coord_df seq_df tr :
  execute_preliminary_clustering pow_half scaler self coord_df seq_df tr =
  match get_velocities_frames pow_half self coord_df seq_df with
  | Raise e => (Raise e, tr)
  | Ok velocities =>
      match scale_features scaler self velocities tr with
      | (Raise e, tr1) => (Raise e, tr1)
      | (Ok scaled, tr1) =>
          match prepare_training_features self scaled with
          | Raise e => (Raise e, tr1)
          | Ok X =>
              match generate_gmm self X tr1 with
              | (Raise e, tr2) => (Raise e, tr2)
              | (Ok (g, self1), tr2) =>
                  match calculate_FV self1 g scaled tr2 with
                  | (Raise e, tr3) => (Raise e, tr3)
                  | (Ok fvs, tr3) =>
                      match generate_histograms self1 fvs with
                      | Raise e => (Raise e, tr3)
                      | Ok hists =>
                          match extract_relevant_and_neutral_configurations
                                  self1 seq_df hists with
                          | Raise e => (Raise e, tr3)
                          | Ok (rel, neu) =>
                              (Ok (set_results g fvs hists rel neu self1), tr3)
                          end
                      end
                  end
              end
          end
      end
  end.
Proof.
  unfold execute_preliminary_clustering, mbind, lift, mret.
  destruct (get_velocities_frames pow_half self coord_df seq_df); [|reflexivity].
  destruct (scale_features scaler self a tr) as [[scaled|] tr1]; [|reflexivity].
  destruct (prepare_training_features self scaled) as [X|]; [|reflexivity].
  destruct (generate_gmm self X tr1) as [[[g self1]|] tr2]; [|reflexivity].
  destruct (calculate_FV self1 g scaled tr2) as [[fvs|] tr3]; [|reflexivity].
  destruct (generate_histograms self1 fvs) as [hists|]; [|reflexivity].
  destruct (extract_relevant_and_neutral_configurations self1 seq_df hists)
    as [[rel neu]|]; reflexivity.
Qed.

(** C2: with BIC selection, a list of candidates and a list of thresholds,
    when the fitted model has k kernels and k first occurs at position i of
    the candidates, [generate_gmm] leaves in [self] the threshold at position
    i of the thresholds and k as the number of kernels; in a run that
    completes, the histograms then have k entries and the neutral indices
    are those that exceed that threshold among 0 .. k-1. *)
Theorem bic_selects_matching_threshold self X g ks ths (i : nat) (t : Qc) :
  fit_by_bic self = true ->
  n_kernels self = KList ks ->
  threshold_neutral self = TList ths ->
  fv_fit_by_bic fisher (covariance_type self) (KList ks) X = Ok g ->
  let k := Z.of_nat (length (gmm_means fisher g)) in
  nth_error ks i = Some k ->
  (forall j, (j < i)%nat -> nth_error ks j <> Some k) ->
  nth_error ths i = Some t ->
  let self1 := set_threshold_and_kernels (TScalar t) (KInt k) self in
  (forall tr,
     generate_gmm self X tr = (Ok (g, self1), tr ++ [CallGmmFitByBic (KList ks) X])) /\
  (forall coord_df seq_df velocities scaled tr tr1 final tr2,
     get_velocities_frames pow_half self coord_df seq_df = Ok velocities ->
     scale_features scaler self velocities tr = (Ok scaled, tr1) ->
     prepare_training_features self scaled = Ok X ->
     execute_preliminary_clustering pow_half scaler self coord_df seq_df tr
       = (Ok final, tr2) ->
     n_kernels final = KInt k /\
     threshold_neutral final = TScalar t /\
     exists hists rel neu,
       histograms_of_videos final = Some hists /\
       index_relevant_configurations final = Some rel /\
       index_neutral_configurations final = Some neu /\
       Forall (fun h => Z.of_nat (length h) = k) hists /\
       (forall j, In j neu <->
                  marked seq_df hists (train_video_idx self) t k j) /\
       rel = filter (fun x => negb (mem x neu)) (arange k)).
Proof.
  intros Hbic Hks Hths Hfit k Hi Hfirst Ht self1.
  assert (Hgmm : forall tr,
             generate_gmm self X tr
             = (Ok (g, self1), tr ++ [CallGmmFitByBic (KList ks) X])).
  { intros tr. unfold generate_gmm, mbind, call, lift, mret.
    rewrite Hbic, Hks, Hfit, Hths. unfold select_threshold.
    fold k. rewrite (list_index_first ks k i Hi Hfirst). simpl.
    rewrite (py_index_nth ths i t Ht). reflexivity. }
  split; [exact Hgmm|].
  intros coord_df seq_df velocities scaled tr tr1 final tr2 Hget Hscale Hprep.
  rewrite execute_eq, Hget, Hscale, Hprep, Hgmm.
  destruct (calculate_FV self1 g scaled _) as [[fvs|] tr3]; [|discriminate].
  destruct (generate_histograms self1 fvs) as [hists|] eqn:Hh; [|discriminate].
  destruct (extract_relevant_and_neutral_configurations self1 seq_df hists)
    as [[rel neu]|] eqn:He; [|discriminate].
  intros [= <- _]. split; [reflexivity|]. split; [reflexivity|].
  exists hists, rel, neu. do 3 (split; [reflexivity|]).
  split; [exact (generate_histograms_length fisher self1 k fvs hists eq_refl Hh)|].
  destruct (extract_spec fisher self1 seq_df hists t k rel neu eq_refl eq_refl He)
    as (Hin & _ & Hrel).
  split; [exact Hin | exact Hrel].
Qed.

(** C7 (amended): when no row comes from the training videos (in particular
    when there is no training index), the scaler is fitted on the empty
    matrix; if that call raises, the run ends with the exception of the
    scaler, after that single call: no mixture model was fitted. *)
Theorem empty_training_set_failure self coord_df seq_df velocities e tr :
  get_velocities_frames pow_half self coord_df seq_df = Ok velocities ->
  train_video_idx self = [] \/ features_train_frames self velocities = Ok [] ->
  scaler_fit scaler [] = Raise e ->
  features_train_frames self velocities = Ok [] /\
  execute_preliminary_clustering pow_half scaler self coord_df seq_df tr
    = (Raise e, tr ++ [CallScalerFit []]) /\
  filter is_gmm_fit (tr ++ [CallScalerFit []]) = filter is_gmm_fit tr.
Proof.
  intros Hget Hempty Hfit.
  assert (Htrain : features_train_frames self velocities = Ok []).
  { destruct Hempty as [Hnil|H]; [|exact H].
    unfold features_train_frames. now rewrite Hnil. }
  split; [exact Htrain|]. split.
  - rewrite execute_eq, Hget, (scale_features_eq scaler fisher), Htrain, Hfit.
    reflexivity.
  - rewrite filter_app. simpl. apply app_nil_r.
Qed.

End Orchestrator.

(** * The statements on the sample data *)

Lemma sample_pow_half_zero : sample_pow_half (Q2Qc 0) = Q2Qc 0.
Proof. apply Qc_is_canon. reflexivity. Qed.

Lemma sample_get_velocities :
  get_velocities_frames sample_pow_half sample_self sample_coord_df sample_seq_df
  = Ok sample_velocities.
Proof. vm_compute. reflexivity. Qed.

Lemma sample_get_velocities_nose :
  get_velocities_frames sample_pow_half sample_self_nose sample_coord_df sample_seq_df
  = Ok sample_velocities_nose.
Proof. vm_compute. reflexivity. Qed.

Lemma sample_coord_df_rows :
  Forall (fun r => length (frame_coords r) = coord_width sample_coord_df)
         (coord_rows sample_coord_df).
Proof. repeat (constructor; [reflexivity|]). constructor. Qed.

(** The three sample videos have 5, 4 and 6 frames; video 0 yields 5 - 2
    rows. *)
Lemma motion_feature_count_witness :
  exists velocities feats,
    get_velocities_frames sample_pow_half sample_self sample_coord_df sample_seq_df
      = Ok velocities /\
    length velocities = 3%nat /\
    nth_error velocities 0 = Some feats /\
    Z.of_nat (length feats) = 5 - 2.
Proof.
  destruct (motion_feature_count sample_pow_half sample_fisher sample_self
              sample_coord_df sample_seq_df)
    as (velocities & Hget & Hlen & Hcount).
  - simpl. lia.
  - reflexivity.
  - exact sample_coord_df_rows.
  - repeat (constructor; [simpl; lia|]). constructor.
  - destruct (Hcount 0%nat _ _ ltac:(simpl; lia) eq_refl eq_refl)
      as (_ & feats & Hnth & _ & Hfeats).
    + vm_compute. lia.
    + exists velocities, feats. repeat split; assumption.
Defined.

(** Column 1 of the sample arrays is the nose tip. *)
Lemma nose_tip_feature_is_zero_witness :
  exists video row,
    nth_error sample_velocities_nose 2 = Some video /\
    nth_error video 3 = Some row /\
    nth_error row 1 = Some (Q2Qc 0).
Proof.
  eexists. eexists. split; [reflexivity|]. split; [reflexivity|].
  eapply (nose_tip_feature_is_zero sample_pow_half sample_fisher sample_self_nose
            sample_coord_df sample_seq_df sample_velocities_nose _ _ 1%nat).
  - exact sample_pow_half_zero.
  - exact sample_get_velocities_nose.
  - eapply nth_error_In with (n := 2%nat). reflexivity.
  - eapply nth_error_In with (n := 3%nat). reflexivity.
  - reflexivity.
Defined.

Lemma sample_fv_positive_shape : well_shaped 2 sample_fv_positive.
Proof.
  split; [discriminate|]. repeat (constructor; [simpl; lia|]). constructor.
Qed.

Lemma sample_fv_zero_shape : well_shaped 2 sample_fv_zero.
Proof.
  split; [discriminate|]. repeat (constructor; [simpl; lia|]). constructor.
Qed.

(** The encoding with masses (4, 7) gives (4/11, 7/11). *)
Lemma histogram_nonnegative_sums_to_one_witness :
  exists h qs,
    generate_histograms sample_self [sample_fv_positive] = Ok [h] /\
    h = map Finite qs /\
    Forall (fun q => (Q2Qc 0 <= q)%Qc) qs /\
    py_sum qs = Q2Qc 1.
Proof.
  destruct (histogram_nonnegative_sums_to_one sample_fisher sample_self 2
              [sample_fv_positive] eq_refl) as [Hdef Hprop].
  - constructor; [|constructor]. unfold nonneg_encoding.
    repeat constructor; vm_compute; discriminate.
  - destruct Hdef as (hists & Hgen).
    + lia.
    + constructor; [exact sample_fv_positive_shape | constructor].
    + pose proof (Hprop hists Hgen) as H.
      inversion H as [|fv h fvs hs (_ & Hsum) Hrest]; subst.
      inversion Hrest; subst.
      destruct Hsum as (qs & Hh & Hpos & Hone).
      { apply Exists_cons_hd. intros E.
        apply (f_equal this) in E. vm_compute in E. discriminate. }
      exists h, qs. split; [exact Hgen|]. split; [exact Hh|].
      split; [exact Hpos | exact Hone].
Defined.

(** The aggregator takes no magnitudes of its own: on an array with a
    negative entry, which [predict] does not return, one frame with the
    masses (-1, 3) gives the histogram (-1/2, 3/2). *)
Lemma negative_entry_is_kept :
  exists a b,
    accumulate 2 (nth 0 sample_fv_negative []) (repeat (Q2Qc 0) 2)
      = Ok [Q2Qc (-1 # 1); Q2Qc (3 # 1)] /\
    generate_histograms sample_self [sample_fv_negative]
      = Ok [[Finite a; Finite b]] /\
    this a = (-1 # 2)%Q /\ this b = (3 # 2)%Q /\
    ~ nonneg_encoding sample_fv_negative.
Proof.
  eexists. eexists.
  split; [vm_compute; reflexivity|].
  split; [lazy; reflexivity|].
  split; [reflexivity|]. split; [reflexivity|].
  intros H. inversion H as [|? ? H1 _]; subst.
  inversion H1 as [|? ? H2 _]; subst.
  inversion H2 as [|? ? H3 _]; subst.
  inversion H3 as [|? ? Hneg _]; subst.
  vm_compute in Hneg. apply Hneg. reflexivity.
Qed.

(** An encoding of zeros: the masses are (0, 0) and the histogram is
    (nan, nan). *)
Lemma zero_mass_histogram_witness :
  generate_histograms sample_self [sample_fv_zero] = Ok [[NaN; NaN]].
Proof.
  destruct (zero_mass_histogram sample_fisher sample_self 2 [sample_fv_zero])
    as [Hgen Hzero].
  - reflexivity.
  - lia.
  - constructor; [exact sample_fv_zero_shape | constructor].
  - rewrite Hgen. cbn [map].
    destruct (Hzero sample_fv_zero (or_introl eq_refl)) as [Hn _].
    + apply Qc_is_canon. reflexivity.
    + cbv zeta in Hn. rewrite Hn. reflexivity.
Defined.

(** Threshold 3/10: kernel 0 is neutral, kernel 1, whose value in video 0
    equals the threshold, is relevant. *)
Lemma partition_covers_range_witness :
  exists rel neu,
    extract_relevant_and_neutral_configurations
      sample_self sample_seq_df sample_histograms = Ok (rel, neu) /\
    NoDup neu /\ NoDup rel /\
    (forall j, ~ (In j neu /\ In j rel)) /\
    (forall j, In j neu \/ In j rel <-> 0 <= j < 2).
Proof.
  destruct (partition_covers_range sample_fisher sample_self sample_seq_df
              sample_histograms (Q2Qc (3 # 10)) 2 eq_refl eq_refl)
    as [Hdef Hprop].
  destruct Hdef as (rel & neu & H).
  - reflexivity.
  - repeat (constructor; [reflexivity|]). constructor.
  - repeat (constructor; [simpl; lia|]). constructor.
  - exists rel, neu. split; [exact H|].
    destruct (Hprop rel neu H) as (H1 & H2 & H3 & H4 & _).
    split; [exact H1|]. split; [exact H2|]. split; [exact H3 | exact H4].
Defined.

(** Thresholds 3/10 and 7/10: one relevant kernel, then two. *)
Lemma threshold_strict_and_monotone_witness :
  (length [1] <= length [0; 1])%nat /\ ~ In 1 [0].
Proof.
  destruct (threshold_strict_and_monotone sample_fisher sample_self sample_seq_df
              sample_histograms 2 (Q2Qc (3 # 10)) (Q2Qc (7 # 10))
              [1] [0] [0; 1] []) as (_ & Hstrict & Hmono).
  - reflexivity.
  - reflexivity.
  - reflexivity.
  - split; [exact Hmono|].
    intros Hin. revert Hin. apply Hstrict.
    intros seq_num hist [<-|[<-|[]]] Hvas Hhist.
    + vm_compute in Hhist. injection Hhist as <-. reflexivity.
    + vm_compute in Hhist. injection Hhist as <-. reflexivity.
Defined.

(** The training videos 0 and 2 have 3 and 4 rows of 8 features. *)
Lemma training_tensor_layout_witness :
  prepare_training_features sample_self sample_velocities
  = Ok {| shape4 := (1, 7, 1, 8)%nat;
          cells4 := [map (fun r => [r]) (concat sample_train_velocities)] |}.
Proof.
  destruct (training_tensor_layout sample_fisher sample_self
              sample_velocities sample_train_velocities eq_refl) as [_ H].
  apply H.
  repeat (constructor; [repeat (constructor; [reflexivity|]); constructor|]).
  constructor.
Defined.

(** Two inputs that differ in video 1 only: the scaler is fitted on the same
    matrix, and the scaled arrays keep the shape of the input. *)
Lemma scaler_sees_training_only_witness :
  scaler_fit_calls
    (snd (scale_features sample_scaler sample_self sample_velocities []))
  = scaler_fit_calls
      (snd (scale_features sample_scaler sample_self sample_velocities_other [])) /\
  Forall2 (Forall2 same_width) sample_velocities sample_scaled.
Proof.
  destruct (scaler_sees_training_only sample_scaler sample_fisher sample_self
              sample_velocities sample_velocities_other) as [Hfit Hshape].
  - intros i [<-|[<-|[]]]; reflexivity.
  - split; [exact (proj1 (proj2 (proj2 Hfit)))|].
    destruct (scale_features sample_scaler sample_self sample_velocities [])
      as [[out|] tr'] eqn:E; [|vm_compute in E; discriminate].
    destruct (Hshape out [] tr' E) as (_ & _ & _ & _ & _ & _ & Hs & _).
    replace sample_scaled with out; [exact Hs|].
    vm_compute in E. injection E as <- _. reflexivity.
Defined.

(** Candidates 2 and 3 with thresholds 2/10 and 4/10: the sample library
    fits 3 kernels on the 7 training rows, and the threshold becomes 4/10. *)
Lemma bic_selects_matching_threshold_witness :
  exists g,
    generate_gmm sample_self_bic sample_tensor []
    = (Ok (g, set_threshold_and_kernels (TScalar (Q2Qc (4 # 10))) (KInt 3)
                                        sample_self_bic),
       [CallGmmFitByBic (KList [2; 3]) sample_tensor]).
Proof.
  exists (firstn 3 (tensor_rows sample_tensor)).
  destruct (bic_selects_matching_threshold sample_pow_half sample_scaler
              sample_fisher sample_self_bic sample_tensor
              (firstn 3 (tensor_rows sample_tensor))
              [2; 3] [Q2Qc (2 # 10); Q2Qc (4 # 10)] 1%nat (Q2Qc (4 # 10)))
    as [Hgmm _].
  - reflexivity.
  - reflexivity.
  - reflexivity.
  - reflexivity.
  - reflexivity.
  - intros [|j] Hj; [vm_compute; discriminate | lia].
  - reflexivity.
  - exact (Hgmm []).
Defined.

(** Without training video the sample scaler rejects the empty matrix. *)
Lemma empty_training_set_failure_witness :
  execute_preliminary_clustering sample_pow_half sample_scaler
    sample_self_no_training sample_coord_df sample_seq_df []
  = (Raise "ValueError"%string, [CallScalerFit []]).
Proof.
  destruct (empty_training_set_failure sample_pow_half sample_scaler sample_fisher
              sample_self_no_training sample_coord_df sample_seq_df
              sample_velocities "ValueError"%string [])
    as (_ & Hrun & _).
  - vm_compute. reflexivity.
  - left. reflexivity.
  - reflexivity.
  - exact Hrun.
Defined.

(** * Where the code departs from the specification *)

(** Counterexample to C7: without training video the run on the sample data
    ends with the ValueError of the scaler, not with EmptyTrainingSetError. *)
Lemma empty_training_set_raises_scaler_error :
  execute_preliminary_clustering sample_pow_half sample_scaler
    sample_self_no_training sample_coord_df sample_seq_df []
  = (Raise "ValueError"%string, [CallScalerFit []]) /\
  fst (execute_preliminary_clustering sample_pow_half sample_scaler
         sample_self_no_training sample_coord_df sample_seq_df [])
  <> Raise "EmptyTrainingSetError"%string.
Proof.
  assert (H : execute_preliminary_clustering sample_pow_half sample_scaler
                sample_self_no_training sample_coord_df sample_seq_df []
              = (Raise "ValueError"%string, [CallScalerFit []]))
    by (vm_compute; reflexivity).
  split; [exact H|]. rewrite H. simpl. discriminate.
Qed.

(** Counterexample to C8: an encoding of zeros has accumulated total 0; the
    aggregator returns the histogram (nan, nan) and raises nothing. *)
Lemma zero_mass_histogram_is_nan :
  accumulate 2 (nth 0 sample_fv_zero []) (repeat (Q2Qc 0) 2)
    = Ok [Q2Qc 0; Q2Qc 0] /\
  generate_histograms sample_self [sample_fv_zero] = Ok [[NaN; NaN]] /\
  generate_histograms sample_self [sample_fv_zero]
    <> Raise "DegenerateHistogramError"%string.
Proof.
  split; [vm_compute; reflexivity|].
  assert (H : generate_histograms sample_self [sample_fv_zero] = Ok [[NaN; NaN]])
    by (vm_compute; reflexivity).
  split; [exact H|]. rewrite H. discriminate.
Qed.

(** * Further properties of the class *)

(** ** Exceptions of list comprehensions and of indexing *)

Section RaiseFacts.

Context {A B : Type}.

Lemma mapM_Ok_all (f : A -> result B) l ys :
  mapM f l = Ok ys -> forall x, In x l -> exists y, f x = Ok y.
Proof.
  intros H x Hx. apply mapM_Forall2 in H.
  induction H as [|a b l ys Hab _ IH]; [contradiction|].
  destruct Hx as [<-|Hx]; [now exists b | auto].
Qed.

(** When every element gives a value or raises [e], so does the whole. *)
Lemma mapM_cases (f : A -> result B) l e :
  (forall x, In x l -> (exists y, f x = Ok y) \/ f x = Raise e) ->
  (exists ys, mapM f l = Ok ys) \/ mapM f l = Raise e.
Proof.
  induction l as [|x l IH]; intros H; simpl.
  - left. now exists [].
  - destruct (H x (or_introl eq_refl)) as [(y & ->)| ->]; simpl; [|now right].
    destruct IH as [(ys & ->)| ->]; simpl.
    + intros z Hz. apply H. now right.
    + left. now eexists.
    + now right.
Qed.

Lemma mapM_raise (f : A -> result B) l e :
  (forall x, In x l -> (exists y, f x = Ok y) \/ f x = Raise e) ->
  (exists x, In x l /\ f x = Raise e) ->
  mapM f l = Raise e.
Proof.
  intros H (x & Hx & Hfx).
  destruct (mapM_cases f l e H) as [(ys & Hys)|Hr]; [|exact Hr].
  destruct (mapM_Ok_all f l ys Hys x Hx) as (y & Hy). congruence.
Qed.

Lemma mapM_const (f : A -> result B) l b :
  (forall x, In x l -> f x = Ok b) -> mapM f l = Ok (repeat b (length l)).
Proof.
  induction l as [|x l IH]; intros H; simpl; [reflexivity|].
  rewrite (H x (or_introl eq_refl)), IH; [reflexivity|].
  intros z Hz. apply H. now right.
Qed.

Lemma py_index_error (l : list A) i e :
  py_index l i = Raise e -> e = "IndexError"%string.
Proof.
  unfold py_index. destruct (_ && _).
  - destruct (nth_error l _); [discriminate|]. now intros [= <-].
  - now intros [= <-].
Qed.

Lemma py_index_range (l : list A) i a :
  py_index l i = Ok a ->
  (- Z.of_nat (length l) <= i < Z.of_nat (length l))%Z.
Proof.
  unfold py_index. destruct (Z.ltb_spec i 0).
  - destruct (andb _ _) eqn:E; [|discriminate].
    apply andb_true_iff in E as [E1 E2].
    apply Z.leb_le in E1. apply Z.ltb_lt in E2. lia.
  - destruct (andb _ _) eqn:E; [|discriminate].
    apply andb_true_iff in E as [E1 E2].
    apply Z.leb_le in E1. apply Z.ltb_lt in E2. lia.
Qed.

Lemma py_index_cases (l : list A) i :
  (exists a, py_index l i = Ok a) \/ py_index l i = Raise "IndexError"%string.
Proof.
  destruct (py_index l i) as [a|e] eqn:E; [left; now exists a|].
  right. now rewrite (py_index_error l i e E).
Qed.

Lemma py_index_out_of_range (l : list A) i :
  ~ (- Z.of_nat (length l) <= i < Z.of_nat (length l))%Z ->
  py_index l i = Raise "IndexError"%string.
Proof.
  intros H. destruct (py_index_cases l i) as [(a & Ha)|Hr]; [|exact Hr].
  apply py_index_range in Ha. contradiction.
Qed.

Lemma row_at_error (l : list A) i e :
  row_at l i = Raise e -> e = "IndexError"%string.
Proof.
  unfold row_at. destruct (nth_error l i); [discriminate|]. now intros [= <-].
Qed.

End RaiseFacts.

Lemma arange_cons (n : nat) :
  arange (Z.of_nat (S n)) = 0%Z :: map Z.of_nat (seq 1 n).
Proof. unfold arange. rewrite Nat2Z.id. reflexivity. Qed.

Lemma In_arange_nat (n v : nat) :
  (v < n)%nat -> In (Z.of_nat v) (arange (Z.of_nat n)).
Proof. intros H. apply In_arange. lia. Qed.

(** ** More on the motion feature extractor *)

Section ExtractorMore.

Variable pow_half : Qc -> Qc.
Variable fisher : FisherVectorGMM.
Implicit Types self : PreliminaryClustering (gmm_model fisher).

Local Open Scope Qc_scope.

(** X1: every row of every array the extractor returns has one cell per
    selected landmark. *)
Theorem extractor_row_width self coord_df seq_df velocities video row :
  get_velocities_frames pow_half self coord_df seq_df = Ok velocities ->
  In video velocities ->
  In row video ->
  length row = length (selected_lndks_idx self).
Proof.
  intros Hget Hvideo Hrow.
  destruct (mapM_In _ _ _ _ Hget Hvideo) as (seq_num & _ & Hvid).
  unfold video_velocities in Hvid.
  destruct (negb _); [discriminate|].
  destruct (negb _); [discriminate|].
  destruct (negb _); [discriminate|].
  destruct (mapM_In _ _ _ _ Hvid Hrow) as (vrow & _ & Hsel).
  exact (mapM_length _ _ _ Hsel).
Qed.

(** With at most 30 landmarks the body of the loop raises for every video:
    a column of the nose tip is missing, or the widths do not agree. *)
Lemma video_velocities_few_landmarks self width lndks :
  (num_lndks self <= 30)%nat ->
  video_velocities pow_half self width lndks =
  Raise (if (width <=? 30 + num_lndks self)%nat
         then "IndexError"%string else "ValueError"%string).
Proof.
  intros HL. unfold video_velocities.
  destruct (Nat.leb_spec width (30 + num_lndks self)) as [Hw|Hw].
  - destruct (Nat.ltb_spec 30 width) as [H30|H30]; cbv [negb]; [|reflexivity].
    replace (30 + num_lndks self <? width)%nat with false
      by (symmetry; apply Nat.ltb_ge; lia).
    reflexivity.
  - replace (30 <? width)%nat with true by (symmetry; apply Nat.ltb_lt; lia).
    replace (30 + num_lndks self <? width)%nat with true
      by (symmetry; apply Nat.ltb_lt; lia).
    replace (width =? num_lndks self + num_lndks self)%nat with false
      by (symmetry; apply Nat.eqb_neq; lia).
    reflexivity.
Qed.

Lemma get_velocities_few_landmarks self coord_df seq_df :
  (num_lndks self <= 30)%nat ->
  seq_df <> [] ->
  get_velocities_frames pow_half self coord_df seq_df =
  Raise (if (coord_width coord_df <=? 30 + num_lndks self)%nat
         then "IndexError"%string else "ValueError"%string).
Proof.
  intros HL Hne. unfold get_velocities_frames.
  destruct seq_df as [|vas seq_df]; [contradiction|].
  change (length (vas :: seq_df)) with (S (length seq_df)).
  rewrite arange_cons. cbn [mapM].
  now rewrite (video_velocities_few_landmarks _ _ _ HL).
Qed.

(** X2: the nose tip is landmark 30, so with at most 30 landmarks and at
    least one video the extractor never returns: it raises IndexError when
    the table has at most 30 + num_lndks coordinate columns and ValueError
    otherwise. *)
Theorem extractor_needs_nose_tip self coord_df seq_df :
  (num_lndks self <= 30)%nat ->
  seq_df <> [] ->
  get_velocities_frames pow_half self coord_df seq_df =
  Raise (if (coord_width coord_df <=? 30 + num_lndks self)%nat
         then "IndexError"%string else "ValueError"%string).
Proof. exact (get_velocities_few_landmarks self coord_df seq_df). Qed.

Lemma zip_with_app {X Y Z} (f : X -> Y -> Z) a b c d :
  length a = length c ->
  zip_with f (a ++ b) (c ++ d) = zip_with f a c ++ zip_with f b d.
Proof.
  revert c; induction a as [|x a IH]; intros [|y c]; simpl; intros H;
    try discriminate; [reflexivity|].
  rewrite IH by lia. reflexivity.
Qed.

Lemma zip_with_repeat {X Y Z} (f : X -> Y -> Z) a y :
  zip_with f a (repeat y (length a)) = map (fun x => f x y) a.
Proof. induction a as [|x a IH]; simpl; [reflexivity | now rewrite IH]. Qed.

Lemma nth_map_lt (f : Qc -> Qc) l n :
  (n < length l)%nat -> nth n (map f l) 0 = f (nth n l 0).
Proof.
  intros H. rewrite (nth_indep _ 0 (f 0)) by (now rewrite length_map).
  apply map_nth.
Qed.

Lemma center_split L xs ys :
  length xs = L -> length ys = L -> (30 < L)%nat ->
  center L (xs ++ ys) =
  map (fun x => x - nth 30 xs 0) xs ++ map (fun y => y - nth 30 ys 0) ys.
Proof.
  intros Hx Hy HL. unfold center.
  rewrite app_nth1 by lia.
  rewrite app_nth2 by lia.
  replace (30 + L - length xs)%nat with 30%nat by lia.
  rewrite zip_with_app by (now rewrite repeat_length).
  rewrite <- Hx at 1. rewrite zip_with_repeat.
  rewrite <- Hy at 1. rewrite zip_with_repeat. reflexivity.
Qed.

Lemma translate_split L dx dy xs ys :
  length xs = L -> length ys = L ->
  translate L dx dy (xs ++ ys) =
  map (fun x => x + dx) xs ++ map (fun y => y + dy) ys.
Proof.
  intros Hx Hy. unfold translate.
  rewrite zip_with_app by (now rewrite repeat_length).
  rewrite <- Hx at 1. rewrite zip_with_repeat.
  rewrite <- Hy at 1. rewrite zip_with_repeat. reflexivity.
Qed.

(** Centering on the nose tip removes a translation of the frame. *)
Lemma center_translate L dx dy row :
  (30 < L)%nat -> length row = (L + L)%nat ->
  center L (translate L dx dy row) = center L row.
Proof.
  intros HL Hrow.
  rewrite <- (firstn_skipn L row).
  assert (Hx : length (firstn L row) = L) by (rewrite length_firstn; lia).
  assert (Hy : length (skipn L row) = L) by (rewrite length_skipn; lia).
  set (xs := firstn L row) in *. set (ys := skipn L row) in *.
  rewrite (translate_split L dx dy xs ys Hx Hy).
  rewrite center_split by (rewrite ?length_map; assumption).
  rewrite (center_split L xs ys Hx Hy HL).
  rewrite !map_map, !nth_map_lt by lia.
  f_equal; apply map_ext; intros a; ring.
Qed.

Lemma filter_map_comm {X Y} (p : Y -> bool) (f : X -> Y) l :
  filter p (map f l) = map f (filter (fun x => p (f x)) l).
Proof.
  induction l as [|x l IH]; simpl; [reflexivity|].
  destruct (p (f x)); simpl; now rewrite IH.
Qed.

(** X3: the features do not depend on where the face is in the frame: moving
    all landmarks of each frame by an offset of its own leaves the result of
    the extractor unchanged (rows of 2 * num_lndks coordinates, more than 30
    landmarks). *)
Theorem extractor_translation_invariant self coord_df seq_df off :
  (30 < num_lndks self)%nat ->
  Forall (fun r => length (frame_coords r) = (num_lndks self + num_lndks self)%nat)
         (coord_rows coord_df) ->
  get_velocities_frames pow_half self
    (translate_table (num_lndks self) off coord_df) seq_df
  = get_velocities_frames pow_half self coord_df seq_df.
Proof.
  intros HL Hrows. unfold get_velocities_frames.
  apply mapM_ext. intros seq_num _.
  unfold video_velocities. cbn [coord_width translate_table].
  destruct (negb _); [reflexivity|].
  destruct (negb _); [reflexivity|].
  destruct (negb _); [reflexivity|].
  replace (map (center (num_lndks self))
               (video_lndks (translate_table (num_lndks self) off coord_df) seq_num))
    with (map (center (num_lndks self)) (video_lndks coord_df seq_num));
    [reflexivity|].
  unfold video_lndks. cbn [coord_rows translate_table].
  rewrite filter_map_comm. cbn [frame_seq].
  rewrite !map_map. apply map_ext_in. intros r Hr. cbn [frame_coords].
  apply filter_In in Hr as [Hr _].
  rewrite Forall_forall in Hrows.
  symmetry. apply center_translate; auto.
Qed.

Lemma lndk_vel_row_length self lndks row :
  Forall (fun r => length r = (num_lndks self + num_lndks self)%nat) lndks ->
  In row (lndk_vel pow_half (num_lndks self) (map (center (num_lndks self)) lndks)) ->
  length row = num_lndks self.
Proof.
  intros Hrows Hrow. unfold lndk_vel in Hrow.
  apply zip_with_In in Hrow as (a & b & Ha & Hb & ->).
  apply In_removelast in Ha. apply In_tl in Hb.
  apply in_map_iff in Ha as (ra & <- & Hra).
  apply in_map_iff in Hb as (rb & <- & Hrb).
  rewrite Forall_forall in Hrows.
  apply frame_velocity_length; apply center_length; auto.
Qed.

Lemma video_velocities_checked self width lndks :
  (30 < num_lndks self)%nat ->
  width = (num_lndks self + num_lndks self)%nat ->
  video_velocities pow_half self width lndks =
  mapM (fun row => mapM (py_index row) (selected_lndks_idx self))
       (tl (lndk_vel pow_half (num_lndks self)
                     (map (center (num_lndks self)) lndks))).
Proof.
  intros HL Hw. unfold video_velocities.
  replace (30 <? width)%nat with true by (symmetry; apply Nat.ltb_lt; lia).
  replace (30 + num_lndks self <? width)%nat with true
    by (symmetry; apply Nat.ltb_lt; lia).
  replace (width =? num_lndks self + num_lndks self)%nat with true
    by (symmetry; apply Nat.eqb_eq; lia).
  reflexivity.
Qed.

Lemma select_cases (row : list Qc) (sel : list Z) :
  (exists r, mapM (py_index row) sel = Ok r) \/
  mapM (py_index row) sel = Raise "IndexError"%string.
Proof. apply mapM_cases. intros i _. apply py_index_cases. Qed.

(** X4: on a well-formed table, a selected index outside
    [-num_lndks, num_lndks) raises IndexError as soon as one video has three
    frames, and goes unnoticed when every video has at most two frames: the
    extractor then returns an empty array for every video. *)
Theorem selected_index_out_of_range self coord_df seq_df i :
  (30 < num_lndks self)%nat ->
  coord_width coord_df = (num_lndks self + num_lndks self)%nat ->
  Forall (fun r => length (frame_coords r) = coord_width coord_df)
         (coord_rows coord_df) ->
  In i (selected_lndks_idx self) ->
  ~ (- Z.of_nat (num_lndks self) <= i < Z.of_nat (num_lndks self))%Z ->
  ((exists v, (v < length seq_df)%nat /\
              (3 <= length (video_lndks coord_df (Z.of_nat v)))%nat) ->
   get_velocities_frames pow_half self coord_df seq_df = Raise "IndexError"%string) /\
  ((forall v, (v < length seq_df)%nat ->
              (length (video_lndks coord_df (Z.of_nat v)) <= 2)%nat) ->
   get_velocities_frames pow_half self coord_df seq_df
   = Ok (repeat [] (length seq_df))).
Proof.
  intros HL Hw Hrows Hi Hout.
  assert (Hwf : forall seq_num,
             Forall (fun r => length r = (num_lndks self + num_lndks self)%nat)
                    (video_lndks coord_df seq_num)).
  { intros seq_num. rewrite <- Hw. now apply video_lndks_width. }
  assert (Hcases : forall seq_num,
             (exists feats,
                 video_velocities pow_half self (coord_width coord_df)
                   (video_lndks coord_df seq_num) = Ok feats) \/
             video_velocities pow_half self (coord_width coord_df)
               (video_lndks coord_df seq_num) = Raise "IndexError"%string).
  { intros seq_num. rewrite (video_velocities_checked _ _ _ HL Hw).
    apply mapM_cases. intros row _. apply select_cases. }
  split.
  - intros (v & Hv & Hframes). unfold get_velocities_frames.
    apply mapM_raise; [intros seq_num _; apply Hcases|].
    exists (Z.of_nat v). split; [now apply In_arange_nat|].
    rewrite (video_velocities_checked _ _ _ HL Hw).
    set (vel := lndk_vel pow_half (num_lndks self)
                  (map (center (num_lndks self)) (video_lndks coord_df (Z.of_nat v)))).
    assert (Hvel : (2 <= length vel)%nat).
    { subst vel. rewrite lndk_vel_length, length_map. lia. }
    destruct vel as [|r0 [|r1 vel']] eqn:Evel; simpl in Hvel; try lia.
    apply mapM_raise; [intros row _; apply select_cases|].
    exists r1. split; [now left|].
    assert (Hlen : length r1 = num_lndks self).
    { apply (lndk_vel_row_length self (video_lndks coord_df (Z.of_nat v)));
        [apply Hwf|]. fold vel. rewrite Evel. right. now left. }
    apply mapM_raise; [intros j _; apply py_index_cases|].
    exists i. split; [exact Hi|].
    apply py_index_out_of_range. now rewrite Hlen.
  - intros Hshort. unfold get_velocities_frames.
    rewrite (mapM_const (B := matrix) _ _ []).
    + now rewrite arange_length, Nat2Z.id.
    + intros seq_num Hin. apply In_arange in Hin.
      rewrite (video_velocities_checked _ _ _ HL Hw).
      specialize (Hshort (Z.to_nat seq_num) ltac:(lia)).
      rewrite Z2Nat.id in Hshort by lia.
      set (vel := lndk_vel pow_half (num_lndks self)
                    (map (center (num_lndks self)) (video_lndks coord_df seq_num))).
      assert (Hvel : (length vel <= 1)%nat).
      { subst vel. rewrite lndk_vel_length, length_map. lia. }
      destruct vel as [|r0 [|r1 vel']]; simpl in Hvel; try lia; reflexivity.
Qed.

End ExtractorMore.

(** ** More on the scaler, the fit and the encoder *)

Section StagesMore.

Variable scaler : RobustScaler.
Variable fisher : FisherVectorGMM.
Implicit Types self : PreliminaryClustering (gmm_model fisher).

Lemma training_lookup_raises self (velocities : list matrix) i :
  In i (train_video_idx self) ->
  ~ (- Z.of_nat (length velocities) <= i < Z.of_nat (length velocities)) ->
  mapM (py_index velocities) (train_video_idx self) = Raise "IndexError"%string.
Proof.
  intros Hi Hout. apply mapM_raise; [intros j _; apply py_index_cases|].
  exists i. split; [exact Hi|]. now apply py_index_out_of_range.
Qed.

(** X5: a training index that is not an index of a video makes the scaling
    stage raise IndexError before the scaler is called (the trace is
    unchanged), and makes the tensor builder raise IndexError as well. *)
Theorem bad_training_index_raises self (velocities : list matrix) tr i :
  In i (train_video_idx self) ->
  ~ (- Z.of_nat (length velocities) <= i < Z.of_nat (length velocities)) ->
  scale_features scaler self velocities tr = (Raise "IndexError"%string, tr) /\
  prepare_training_features self velocities = Raise "IndexError"%string.
Proof.
  intros Hi Hout.
  pose proof (training_lookup_raises self velocities i Hi Hout) as Hraise.
  split.
  - rewrite scale_features_eq. unfold features_train_frames.
    now rewrite Hraise.
  - unfold prepare_training_features. now rewrite Hraise.
Qed.

(** What [generate_gmm] has done when it returns. *)
Lemma generate_gmm_inv self X tr g self' tr' :
  generate_gmm self X tr = (Ok (g, self'), tr') ->
  num_lndks self' = num_lndks self /\
  selected_lndks_idx self' = selected_lndks_idx self /\
  train_video_idx self' = train_video_idx self /\
  fit_by_bic self' = fit_by_bic self /\
  covariance_type self' = covariance_type self /\
  if fit_by_bic self then
    fv_fit_by_bic fisher (covariance_type self) (n_kernels self) X = Ok g /\
    tr' = tr ++ [CallGmmFitByBic (n_kernels self) X] /\
    n_kernels self' = KInt (Z.of_nat (length (gmm_means fisher g))) /\
    match threshold_neutral self with
    | TList ths => exists t, In t ths /\ threshold_neutral self' = TScalar t
    | other => threshold_neutral self' = other
    end
  else
    fv_fit fisher (covariance_type self) (n_kernels self) X = Ok g /\
    tr' = tr ++ [CallGmmFit (n_kernels self) X] /\
    self' = self.
Proof.
  unfold generate_gmm, mbind, call, lift, mret.
  destruct (fit_by_bic self) eqn:Hbic.
  - destruct (fv_fit_by_bic fisher _ _ X) as [g0|] eqn:Hfit; [|discriminate].
    destruct (select_threshold _ _ _) as [thr|] eqn:Hsel; [|discriminate].
    intros [= <- <- <-]. cbn [num_lndks selected_lndks_idx train_video_idx
      fit_by_bic covariance_type n_kernels threshold_neutral
      set_threshold_and_kernels].
    repeat (split; [first [reflexivity | assumption]|]).
    unfold select_threshold in Hsel.
    destruct (threshold_neutral self) as [|t0|ths]; try (now injection Hsel as <-).
    destruct (n_kernels self) as [|ks]; [discriminate|].
    destruct (list_index ks _) as [i|]; simpl in Hsel; [|discriminate].
    destruct (py_index ths i) as [t|] eqn:Ht; simpl in Hsel; [|discriminate].
    injection Hsel as <-. exists t. split; [|reflexivity].
    exact (py_index_In ths i t Ht).
  - destruct (fv_fit fisher _ _ X) as [g0|] eqn:Hfit; [|discriminate].
    intros [= <- <- <-]. rewrite Hbic. repeat split; assumption.
Qed.

(** X6: when [generate_gmm] returns it has made exactly one call to the
    fitting library.  With BIC selection the number of kernels of [self]
    is the number of means of the model returned, and a threshold that was
    a list has become one of its elements; without it [self] is unchanged.
    The other configuration fields are never changed. *)
Theorem generate_gmm_updates self X tr g self' tr' :
  generate_gmm self X tr = (Ok (g, self'), tr') ->
  num_lndks self' = num_lndks self /\
  selected_lndks_idx self' = selected_lndks_idx self /\
  train_video_idx self' = train_video_idx self /\
  fit_by_bic self' = fit_by_bic self /\
  covariance_type self' = covariance_type self /\
  if fit_by_bic self then
    fv_fit_by_bic fisher (covariance_type self) (n_kernels self) X = Ok g /\
    tr' = tr ++ [CallGmmFitByBic (n_kernels self) X] /\
    n_kernels self' = KInt (Z.of_nat (length (gmm_means fisher g))) /\
    match threshold_neutral self with
    | TList ths => exists t, In t ths /\ threshold_neutral self' = TScalar t
    | other => threshold_neutral self' = other
    end
  else
    fv_fit fisher (covariance_type self) (n_kernels self) X = Ok g /\
    tr' = tr ++ [CallGmmFit (n_kernels self) X] /\
    self' = self.
Proof. exact (generate_gmm_inv self X tr g self' tr'). Qed.

(** X7: with BIC selection and a list of thresholds the lookup of the
    threshold comes after the fit: when the list of thresholds has no
    element at the position the number of kernels of the fitted model has
    among the candidates, the stage raises IndexError, and the fit, which the
    trace shows was made, is lost. *)
Theorem bic_threshold_list_too_short self X g ks ths (i : nat) tr :
  fit_by_bic self = true ->
  n_kernels self = KList ks ->
  threshold_neutral self = TList ths ->
  fv_fit_by_bic fisher (covariance_type self) (KList ks) X = Ok g ->
  let k := Z.of_nat (length (gmm_means fisher g)) in
  nth_error ks i = Some k ->
  (forall j, (j < i)%nat -> nth_error ks j <> Some k) ->
  (length ths <= i)%nat ->
  generate_gmm self X tr
  = (Raise "IndexError"%string, tr ++ [CallGmmFitByBic (KList ks) X]).
Proof.
  intros Hbic Hks Hths Hfit k Hi Hfirst Hlen.
  unfold generate_gmm, mbind, call, lift, mret.
  rewrite Hbic, Hks, Hfit, Hths. unfold select_threshold. fold k.
  rewrite (list_index_first ks k i Hi Hfirst). simpl.
  rewrite (py_index_out_of_range ths (Z.of_nat i)) by lia. reflexivity.
Qed.

(** What [calculate_FV] has done when it returns. *)
Lemma calculate_FV_inv self g (velocities : list matrix) tr fvs tr' :
  calculate_FV self g velocities tr = (Ok fvs, tr') ->
  exists Xs,
    Forall2 (fun feature X =>
               X = {| shape4 := (1, length feature, 1,
                                 length (selected_lndks_idx self))%nat;
                      cells4 := [map (fun r => [r]) feature] |} /\
               Forall (fun r => length r = length (selected_lndks_idx self)) feature)
            velocities Xs /\
    Forall2 (fun X fv => fv_predict fisher g X = Ok fv) Xs fvs /\
    tr' = tr ++ map CallGmmPredict Xs.
Proof.
  unfold calculate_FV.
  revert tr fvs tr'; induction velocities as [|feature velocities IH];
    intros tr fvs tr'; simpl.
  - unfold mret. intros [= <- <-]. exists []. repeat split; try constructor.
    now rewrite app_nil_r.
  - unfold mbind at 1 2, lift, call.
    unfold reshape_video at 1.
    destruct (forallb _ feature) eqn:Hw; [|discriminate].
    destruct (fv_predict fisher g _) as [fv|] eqn:Hp; [|discriminate].
    unfold mbind at 1.
    destruct (mapMM _ velocities _) as [[fvs0|] tr0] eqn:Hrest; [|discriminate].
    unfold mret. intros [= <- <-].
    apply IH in Hrest as (Xs & HX & Hpred & ->).
    eexists (_ :: Xs). split; [|split].
    + constructor; [|exact HX]. split; [reflexivity|].
      apply Forall_forall. intros r Hr.
      rewrite forallb_forall in Hw. now apply Nat.eqb_eq, Hw.
    + constructor; [exact Hp | exact Hpred].
    + simpl. now rewrite <- app_assoc.
Qed.

(** X8: when [calculate_FV] returns it has called [predict] once for every
    video of the dataset, training video or not, in the order of the videos,
    each time on an array of shape (1, frames, 1, features), and it returns
    the encodings in that order. *)
Theorem calculate_FV_encodes_every_video self g (velocities : list matrix)
    tr fvs tr' :
  calculate_FV self g velocities tr = (Ok fvs, tr') ->
  exists Xs,
    Forall2 (fun feature X =>
               X = {| shape4 := (1, length feature, 1,
                                 length (selected_lndks_idx self))%nat;
                      cells4 := [map (fun r => [r]) feature] |} /\
               Forall (fun r => length r = length (selected_lndks_idx self)) feature)
            velocities Xs /\
    Forall2 (fun X fv => fv_predict fisher g X = Ok fv) Xs fvs /\
    tr' = tr ++ map CallGmmPredict Xs.
Proof. exact (calculate_FV_inv self g velocities tr fvs tr'). Qed.

End StagesMore.

(** ** More on the aggregator and the partitioner *)

Section AggregatorMore.

Variable fisher : FisherVectorGMM.
Implicit Types self : PreliminaryClustering (gmm_model fisher).

Lemma add_frame_inv K frame js hist h :
  add_frame K frame js hist = Ok h ->
  forall j, In j js -> (j + K < length frame)%nat.
Proof.
  revert hist; induction js as [|j0 js IH]; intros hist; simpl; [contradiction|].
  destruct (row_at frame j0) as [a|]; simpl; [|discriminate].
  destruct (row_at frame (j0 + K)) as [b|] eqn:Hb; simpl; [|discriminate].
  intros H j [->|Hj]; [|eapply IH; eassumption].
  unfold row_at in Hb. destruct (nth_error frame (j + K)) eqn:E; [|discriminate].
  apply nth_error_Some. congruence.
Qed.

Lemma add_frame_error K frame js hist e :
  add_frame K frame js hist = Raise e -> e = "IndexError"%string.
Proof.
  revert hist; induction js as [|j js IH]; intros hist; simpl; [discriminate|].
  destruct (row_at frame j) as [a|] eqn:Ha; simpl;
    [|intros [= <-]; exact (row_at_error _ _ _ Ha)].
  destruct (row_at frame (j + K)) as [b|] eqn:Hb; simpl;
    [|intros [= <-]; exact (row_at_error _ _ _ Hb)].
  apply IH.
Qed.

Lemma accumulate_inv K frames hist acc :
  accumulate K frames hist = Ok acc ->
  Forall (fun frame : matrix => (K + K <= length frame)%nat) frames.
Proof.
  revert hist; induction frames as [|frame frames IH]; intros hist; simpl;
    [constructor|].
  destruct (add_frame K frame (seq 0 K) hist) as [h|] eqn:E; simpl; [|discriminate].
  intros H. constructor; [|eapply IH; eassumption].
  destruct K as [|k]; [lia|].
  pose proof (add_frame_inv _ _ _ _ _ E k) as Hk.
  specialize (Hk ltac:(apply in_seq; lia)). lia.
Qed.

Lemma accumulate_error K frames hist e :
  accumulate K frames hist = Raise e -> e = "IndexError"%string.
Proof.
  revert hist; induction frames as [|frame frames IH]; intros hist; simpl;
    [discriminate|].
  destruct (add_frame K frame (seq 0 K) hist) as [h|] eqn:E; simpl.
  - apply IH.
  - intros [= <-]. exact (add_frame_error _ _ _ _ _ E).
Qed.

Lemma video_histogram_shape K video_fv h :
  video_histogram (KInt K) video_fv = Ok h -> well_shaped (Z.to_nat K) video_fv.
Proof.
  intros H. apply video_histogram_Ok in H as (_ & frames & acc & Hrow & Hacc & _).
  split.
  - intros ->. discriminate.
  - rewrite (row_at_nth _ _ _ [] Hrow). exact (accumulate_inv _ _ _ _ Hacc).
Qed.

Lemma video_histogram_cases K video_fv :
  (0 <= K)%Z ->
  (exists h, video_histogram (KInt K) video_fv = Ok h) \/
  video_histogram (KInt K) video_fv = Raise "IndexError"%string.
Proof.
  intros HK. unfold video_histogram.
  destruct (row_at video_fv 0) as [frames|e] eqn:Hrow; simpl.
  - destruct (Z.ltb_spec K 0); [lia|]. simpl.
    destruct (accumulate _ frames _) as [acc|e] eqn:E; simpl.
    + left. now eexists.
    + right. now rewrite (accumulate_error _ _ _ _ E).
  - right. now rewrite (row_at_error _ _ _ Hrow).
Qed.

(** X9: with K >= 0 kernels the aggregator returns exactly when every
    encoding has a first axis and at least 2 * K rows in every frame; when
    one has not, it raises IndexError. *)
Theorem generate_histograms_returns_iff self K fvs :
  n_kernels self = KInt K ->
  (0 <= K)%Z ->
  ((exists hists, generate_histograms self fvs = Ok hists) <->
   Forall (well_shaped (Z.to_nat K)) fvs) /\
  (~ Forall (well_shaped (Z.to_nat K)) fvs ->
   generate_histograms self fvs = Raise "IndexError"%string).
Proof.
  intros HK HK0. rewrite (generate_histograms_int _ _ _ _ HK).
  assert (Hshape : forall hists,
             mapM (video_histogram (KInt K)) fvs = Ok hists ->
             Forall (well_shaped (Z.to_nat K)) fvs).
  { intros hists H. apply Forall_forall. intros fv Hfv.
    destruct (mapM_Ok_all _ _ _ H fv Hfv) as (h & Hh).
    exact (video_histogram_shape _ _ _ Hh). }
  split; [split|].
  - intros (hists & H). exact (Hshape hists H).
  - intros Hall. apply mapM_defined. intros fv Hfv.
    rewrite Forall_forall in Hall.
    apply video_histogram_defined; auto.
  - intros Hnot.
    destruct (mapM_cases (video_histogram (KInt K)) fvs "IndexError"%string)
      as [(hists & H)|H]; [| |exact H].
    + intros fv _. now apply video_histogram_cases.
    + exfalso. exact (Hnot (Hshape hists H)).
Qed.

Lemma scan_training_ext self (seq1 seq2 : seq_table) (h1 h2 : list (list fval))
    train neutral :
  (forall i, In i train ->
             py_index seq1 i = py_index seq2 i /\ py_index h1 i = py_index h2 i) ->
  scan_training self seq1 h1 train neutral
  = scan_training self seq2 h2 train neutral.
Proof.
  revert neutral; induction train as [|i train IH]; intros neutral H; simpl;
    [reflexivity|].
  destruct (H i (or_introl eq_refl)) as [-> ->].
  destruct (py_index seq2 i) as [vas|]; simpl; [|reflexivity].
  destruct (if (vas =? 0)%Z then _ else _) as [n|]; simpl; [|reflexivity].
  apply IH. intros j Hj. apply H. now right.
Qed.

(** X10: the partition is derived from the labels and the histograms of the
    training videos only: two datasets that agree on them give the same
    result, or the same exception, whatever the other videos are. *)
Theorem partition_uses_training_only self (seq1 seq2 : seq_table)
    (h1 h2 : list (list fval)) :
  (forall i, In i (train_video_idx self) ->
             py_index seq1 i = py_index seq2 i /\ py_index h1 i = py_index h2 i) ->
  extract_relevant_and_neutral_configurations self seq1 h1
  = extract_relevant_and_neutral_configurations self seq2 h2.
Proof.
  intros H. unfold extract_relevant_and_neutral_configurations.
  now rewrite (scan_training_ext self seq1 seq2 h1 h2 _ [] H).
Qed.

Lemma marked_incl seq_df histograms train1 train2 t K j :
  incl train1 train2 ->
  marked seq_df histograms train1 t K j ->
  marked seq_df histograms train2 t K j.
Proof.
  intros Hincl (s & hist & Hs & Hrest). exists s, hist. split; [auto|exact Hrest].
Qed.

(** X11: the neutral components grow with the training set and do not depend
    on the order or the repetitions of the training indices: with more
    training videos the neutral list has at least the same elements and the
    relevant list at most the same, and two training lists with the same
    elements give the same relevant list and the same neutral elements. *)
Theorem partition_monotone_in_training self seq_df histograms t K
    train1 train2 rel1 neu1 rel2 neu2 :
  threshold_neutral self = TScalar t ->
  n_kernels self = KInt K ->
  incl train1 train2 ->
  extract_relevant_and_neutral_configurations
    (set_train_video_idx train1 self) seq_df histograms = Ok (rel1, neu1) ->
  extract_relevant_and_neutral_configurations
    (set_train_video_idx train2 self) seq_df histograms = Ok (rel2, neu2) ->
  incl neu1 neu2 /\
  incl rel2 rel1 /\
  (incl train2 train1 ->
   rel1 = rel2 /\ forall j, In j neu1 <-> In j neu2).
Proof.
  intros Ht HK Hincl H1 H2.
  apply (extract_spec fisher _ _ _ t K) in H1 as (Hin1 & _ & ->); [|assumption..].
  apply (extract_spec fisher _ _ _ t K) in H2 as (Hin2 & _ & ->); [|assumption..].
  cbn [train_video_idx set_train_video_idx] in Hin1, Hin2.
  assert (Hneu : incl neu1 neu2).
  { intros j Hj. apply Hin2. eapply marked_incl; [exact Hincl|]. now apply Hin1. }
  split; [exact Hneu|]. split.
  - intros j Hj. apply filter_In in Hj as [Hj Hn]. apply filter_In.
    split; [exact Hj|].
    apply negb_true_iff, mem_false in Hn. apply negb_true_iff, mem_false.
    intros Hj1. apply Hn. now apply Hneu.
  - intros Hincl'.
    assert (Heq : forall j, In j neu1 <-> In j neu2).
    { intros j. split; [apply Hneu|].
      intros Hj. apply Hin1. eapply marked_incl; [exact Hincl'|]. now apply Hin2. }
    split; [|exact Heq].
    apply filter_ext. intros j. f_equal.
    destruct (mem j neu1) eqn:E1, (mem j neu2) eqn:E2; try reflexivity.
    + apply mem_In, Heq, mem_In in E1. congruence.
    + apply mem_In, Heq, mem_In in E2. congruence.
Qed.

Lemma mark_neutral_error t hist js neutral e :
  mark_neutral (TScalar t) hist js neutral = Raise e -> e = "IndexError"%string.
Proof.
  revert neutral; induction js as [|j js IH]; intros neutral; simpl; [discriminate|].
  destruct (row_at hist (Z.to_nat j)) as [h|] eqn:Hrow; simpl.
  - apply IH.
  - intros [= <-]. exact (row_at_error _ _ _ Hrow).
Qed.

Lemma scan_training_bad_index self seq_df histograms t K train neutral i :
  threshold_neutral self = TScalar t ->
  n_kernels self = KInt K ->
  In i train ->
  ~ (- Z.of_nat (length seq_df) <= i < Z.of_nat (length seq_df))%Z ->
  scan_training self seq_df histograms train neutral = Raise "IndexError"%string.
Proof.
  intros Ht HK Hi Hout.
  revert neutral; induction train as [|s train IH]; intros neutral;
    [contradiction|]. simpl.
  destruct (py_index seq_df s) as [vas|e] eqn:Hvas; simpl;
    [|now rewrite (py_index_error _ _ _ Hvas)].
  assert (Htail : In i train).
  { destruct Hi as [->|Hi]; [|exact Hi].
    apply py_index_range in Hvas. contradiction. }
  destruct (vas =? 0)%Z; [|simpl; now apply IH].
  destruct (py_index histograms s) as [hist|e] eqn:Hh; simpl;
    [|now rewrite (py_index_error _ _ _ Hh)].
  rewrite HK, Ht. simpl.
  destruct (mark_neutral (TScalar t) hist (arange K) neutral) as [n|e] eqn:Hm; simpl.
  - now apply IH.
  - now rewrite (mark_neutral_error _ _ _ _ _ Hm).
Qed.

(** X12: with a scalar threshold and an int number of kernels, a training
    index that is not an index of the sequence table makes the partitioner
    raise IndexError, wherever it stands in the list. *)
Theorem partition_bad_training_index self seq_df histograms t K i :
  threshold_neutral self = TScalar t ->
  n_kernels self = KInt K ->
  In i (train_video_idx self) ->
  ~ (- Z.of_nat (length seq_df) <= i < Z.of_nat (length seq_df))%Z ->
  extract_relevant_and_neutral_configurations self seq_df histograms
  = Raise "IndexError"%string.
Proof.
  intros Ht HK Hi Hout. unfold extract_relevant_and_neutral_configurations.
  now rewrite (scan_training_bad_index self seq_df histograms t K _ [] i Ht HK Hi Hout).
Qed.

End AggregatorMore.

(** ** More on the whole run *)

Section RunMore.

Variable pow_half : Qc -> Qc.
Variable scaler : RobustScaler.
Variable fisher : FisherVectorGMM.
Implicit Types self : PreliminaryClustering (gmm_model fisher).

(** The values the stages of a run that completes have passed on. *)
Lemma execute_stages self coord_df seq_df tr final tr' :
  execute_preliminary_clustering pow_half scaler self coord_df seq_df tr
    = (Ok final, tr') ->
  exists velocities scaled tr1 X g self1 tr2 fvs hists rel neu,
    get_velocities_frames pow_half self coord_df seq_df = Ok velocities /\
    scale_features scaler self velocities tr = (Ok scaled, tr1) /\
    prepare_training_features self scaled = Ok X /\
    generate_gmm self X tr1 = (Ok (g, self1), tr2) /\
    calculate_FV self1 g scaled tr2 = (Ok fvs, tr') /\
    generate_histograms self1 fvs = Ok hists /\
    extract_relevant_and_neutral_configurations self1 seq_df hists = Ok (rel, neu) /\
    final = set_results g fvs hists rel neu self1.
Proof.
  rewrite execute_eq.
  destruct (get_velocities_frames pow_half self coord_df seq_df)
    as [velocities|] eqn:E1; [|discriminate].
  destruct (scale_features scaler self velocities tr) as [[scaled|] tr1] eqn:E2;
    [|discriminate].
  destruct (prepare_training_features self scaled) as [X|] eqn:E3; [|discriminate].
  destruct (generate_gmm self X tr1) as [[[g self1]|] tr2] eqn:E4; [|discriminate].
  destruct (calculate_FV self1 g scaled tr2) as [[fvs|] tr3] eqn:E5; [|discriminate].
  destruct (generate_histograms self1 fvs) as [hists|] eqn:E6; [|discriminate].
  destruct (extract_relevant_and_neutral_configurations self1 seq_df hists)
    as [[rel neu]|] eqn:E7; [|discriminate].
  intros [= <- <-].
  exists velocities, scaled, tr1, X, g, self1, tr2, fvs, hists, rel, neu.
  repeat split; assumption.
Qed.

Lemma scale_features_Ok self (velocities scaled : list matrix) tr tr1 :
  scale_features scaler self velocities tr = (Ok scaled, tr1) ->
  exists train,
    features_train_frames self velocities = Ok train /\
    tr1 = tr ++ [CallScalerFit train; CallScalerTransform (concat velocities)] /\
    length scaled = length velocities.
Proof.
  rewrite scale_features_eq.
  destruct (features_train_frames self velocities) as [train|]; [|discriminate].
  destruct (scaler_fit scaler train) as [fitted|]; [|discriminate].
  destruct (scaler_transform scaler fitted (concat velocities)) as [out|];
    [|discriminate].
  cbv zeta. intros [= Hwb <-].
  exists train. split; [reflexivity|]. split; [now rewrite <- app_assoc|].
  apply write_back_spec in Hwb as (Hshape & _).
  symmetry. exact (Forall2_length Hshape).
Qed.

(** One histogram per row of the sequence table. *)
Lemma execute_counts self coord_df seq_df tr tr' velocities scaled tr1
    g self1 tr2 fvs hists :
  get_velocities_frames pow_half self coord_df seq_df = Ok velocities ->
  scale_features scaler self velocities tr = (Ok scaled, tr1) ->
  calculate_FV self1 g scaled tr2 = (Ok fvs, tr') ->
  generate_histograms self1 fvs = Ok hists ->
  length hists = length seq_df.
Proof.
  intros Hget Hscale Hfv Hh.
  apply mapM_length in Hget. rewrite arange_length, Nat2Z.id in Hget.
  apply scale_features_Ok in Hscale as (_ & _ & _ & Hlen).
  apply calculate_FV_inv in Hfv as (Xs & HX & Hp & _).
  apply Forall2_length in HX, Hp.
  unfold generate_histograms in Hh. apply mapM_length in Hh.
  unfold matrix, fisher_vector in *. congruence.
Qed.

(** X13: a run that completes has called the libraries in this order and no
    more: the scaler is fitted once and applied once, one mixture model is
    fitted (by BIC or not, as configured), and [predict] is called once per
    row of the sequence table. *)
Theorem execute_call_sequence self coord_df seq_df tr final tr' :
  execute_preliminary_clustering pow_half scaler self coord_df seq_df tr
    = (Ok final, tr') ->
  exists velocities train X Xs,
    get_velocities_frames pow_half self coord_df seq_df = Ok velocities /\
    features_train_frames self velocities = Ok train /\
    tr' = tr ++ [CallScalerFit train;
                 CallScalerTransform (concat velocities);
                 if fit_by_bic self
                 then CallGmmFitByBic (n_kernels self) X
                 else CallGmmFit (n_kernels self) X]
             ++ map CallGmmPredict Xs /\
    length Xs = length seq_df.
Proof.
  intros H.
  apply execute_stages in H
    as (velocities & scaled & tr1 & X & g & self1 & tr2 & fvs & hists & rel & neu
        & Hget & Hscale & Hprep & Hgmm & Hfv & Hh & He & ->).
  destruct (scale_features_Ok _ _ _ _ _ Hscale) as (train & Htrain & -> & Hlen).
  apply calculate_FV_inv in Hfv as (Xs & HX & Hp & ->).
  exists velocities, train, X, Xs.
  split; [exact Hget|]. split; [exact Htrain|]. split.
  - apply generate_gmm_inv in Hgmm as (_ & _ & _ & _ & _ & Hmode).
    destruct (fit_by_bic self).
    + destruct Hmode as (_ & -> & _). now rewrite <- !app_assoc.
    + destruct Hmode as (_ & -> & _). now rewrite <- !app_assoc.
  - apply mapM_length in Hget. rewrite arange_length, Nat2Z.id in Hget.
    apply Forall2_length in HX. unfold matrix in *. congruence.
Qed.

Lemma extract_cover self seq_df histograms t K rel neu :
  threshold_neutral self = TScalar t ->
  n_kernels self = KInt K ->
  extract_relevant_and_neutral_configurations self seq_df histograms = Ok (rel, neu) ->
  NoDup neu /\ NoDup rel /\
  (forall j, In j neu -> 0 <= j < K)%Z /\
  (forall j, In j rel <-> (0 <= j < K)%Z /\ ~ In j neu) /\
  (forall j, In j neu <-> marked seq_df histograms (train_video_idx self) t K j).
Proof.
  intros Ht HK H.
  apply (extract_spec fisher _ _ _ t K) in H as (Hin & Hnd & ->); [|assumption..].
  split; [exact Hnd|]. split; [apply NoDup_filter, NoDup_arange|].
  split; [|split; [|exact Hin]].
  - intros j Hj. apply Hin in Hj as (? & ? & _ & _ & _ & Hj & _). exact Hj.
  - intros j. now rewrite filter_In, In_arange, negb_true_iff, mem_false.
Qed.

(** What a run that completes with K kernels and a scalar threshold leaves
    in [self]. *)
Lemma execute_outputs self coord_df seq_df tr final tr' K t :
  execute_preliminary_clustering pow_half scaler self coord_df seq_df tr
    = (Ok final, tr') ->
  n_kernels final = KInt K ->
  threshold_neutral final = TScalar t ->
  exists hists rel neu,
    histograms_of_videos final = Some hists /\
    index_relevant_configurations final = Some rel /\
    index_neutral_configurations final = Some neu /\
    length hists = length seq_df /\
    Forall (fun h => Z.of_nat (length h) = K) hists /\
    NoDup neu /\ NoDup rel /\
    (forall j, In j neu -> 0 <= j < K)%Z /\
    (forall j, In j rel <-> (0 <= j < K)%Z /\ ~ In j neu) /\
    (forall j, In j neu <-> marked seq_df hists (train_video_idx self) t K j).
Proof.
  intros H HK Ht.
  apply execute_stages in H
    as (velocities & scaled & tr1 & X & g & self1 & tr2 & fvs & hists & rel & neu
        & Hget & Hscale & Hprep & Hgmm & Hfv & Hh & He & ->).
  cbn [n_kernels threshold_neutral set_results] in HK, Ht.
  exists hists, rel, neu. do 3 (split; [reflexivity|]).
  split; [exact (execute_counts self coord_df seq_df tr tr' velocities scaled
                   tr1 g self1 tr2 fvs hists Hget Hscale Hfv Hh)|].
  split; [exact (generate_histograms_length fisher self1 K fvs hists HK Hh)|].
  apply generate_gmm_inv in Hgmm as (_ & _ & Htrain & _).
  rewrite <- Htrain.
  exact (extract_cover self1 seq_df hists t K rel neu Ht HK He).
Qed.

(** X14: a run that completes with K kernels and a scalar threshold leaves
    in [self] one histogram of K entries for every row of the sequence
    table, and two index lists without repetition that share no index,
    hold together exactly 0 .. K-1 and put among the neutral ones the
    components that exceed the threshold in a training video of label 0. *)
Theorem execute_leaves_histograms_and_partition self coord_df seq_df tr final tr' K t :
  execute_preliminary_clustering pow_half scaler self coord_df seq_df tr
    = (Ok final, tr') ->
  n_kernels final = KInt K ->
  threshold_neutral final = TScalar t ->
  exists hists rel neu,
    histograms_of_videos final = Some hists /\
    index_relevant_configurations final = Some rel /\
    index_neutral_configurations final = Some neu /\
    length hists = length seq_df /\
    Forall (fun h => Z.of_nat (length h) = K) hists /\
    NoDup neu /\ NoDup rel /\
    (forall j, In j neu -> 0 <= j < K)%Z /\
    (forall j, In j rel <-> (0 <= j < K)%Z /\ ~ In j neu) /\
    (forall j, In j neu <-> marked seq_df hists (train_video_idx self) t K j).
Proof. exact (execute_outputs self coord_df seq_df tr final tr' K t). Qed.

(** X15: with at most 30 landmarks and at least one video, a run ends with
    the exception of the extractor before any library is called: the trace
    is the one it started with. *)
Theorem execute_fails_before_any_call self coord_df seq_df tr :
  (num_lndks self <= 30)%nat ->
  seq_df <> [] ->
  execute_preliminary_clustering pow_half scaler self coord_df seq_df tr
  = (Raise (if (coord_width coord_df <=? 30 + num_lndks self)%nat
            then "IndexError"%string else "ValueError"%string), tr).
Proof.
  intros HL Hne.
  now rewrite execute_eq, (get_velocities_few_landmarks pow_half fisher _ _ _ HL Hne).
Qed.

End RunMore.

(** ** The figures *)

Section Figures.

Local Open Scope string_scope.

Lemma string_length_append (a b : string) :
  String.length (a ++ b) = (String.length a + String.length b)%nat.
Proof. induction a as [|c a IH]; simpl; [reflexivity | now rewrite IH]. Qed.

Lemma append_inv_head (s a b : string) : s ++ a = s ++ b -> a = b.
Proof.
  induction s as [|c s IH]; simpl; [auto|]. intros [= H]. auto.
Qed.

Lemma append_inv_tail (a b t : string) : a ++ t = b ++ t -> a = b.
Proof.
  revert b; induction a as [|c a IH]; intros [|c' b]; simpl; intros H.
  - reflexivity.
  - apply (f_equal String.length) in H. simpl in H.
    rewrite string_length_append in H. lia.
  - apply (f_equal String.length) in H. simpl in H.
    rewrite string_length_append in H. lia.
  - injection H as -> H. f_equal. auto.
Qed.

(** Zeros in front of the digits do not change the number that is read. *)
Lemma padded_decimal (k : nat) (d : uint) :
  exists d',
    NilEmpty.uint_of_string (zeros k ++ NilEmpty.string_of_uint d) = Some d' /\
    Nat.of_uint d' = Nat.of_uint d.
Proof.
  induction k as [|k (d' & Hd & Hv)].
  - exists d. split; [apply NilEmpty.usu | reflexivity].
  - exists (D0 d'). split.
    + simpl. now rewrite Hd.
    + rewrite <- Hv. unfold Nat.of_uint. simpl.
      now rewrite Nat.tail_mul_spec.
Qed.

Lemma format_03d_inj (a b : nat) : format_03d a = format_03d b -> a = b.
Proof.
  unfold format_03d, str_of_nat. intros H.
  destruct (padded_decimal (3 - String.length (NilEmpty.string_of_uint (Nat.to_uint a)))
              (Nat.to_uint a)) as (da & Ha & Hva).
  destruct (padded_decimal (3 - String.length (NilEmpty.string_of_uint (Nat.to_uint b)))
              (Nat.to_uint b)) as (db & Hb & Hvb).
  rewrite H, Hb in Ha. injection Ha as <-.
  rewrite <- (Unsigned.of_to a), <- (Unsigned.of_to b). congruence.
Qed.

Lemma figure_name_inj (path : string) (a b : nat) :
  path ++ "video-" ++ format_03d a ++ ".png"
  = path ++ "video-" ++ format_03d b ++ ".png" ->
  a = b.
Proof.
  intros H. apply append_inv_head, append_inv_head, append_inv_tail in H.
  now apply format_03d_inj.
Qed.

Lemma saved_files_app c1 c2 :
  saved_files (c1 ++ c2) = (saved_files c1 ++ saved_files c2)%list.
Proof. unfold saved_files. apply flat_map_app. Qed.


Lemma plot_bar_saves_nothing index histo color calls :
  plot_bar index histo color = Ok calls -> saved_files calls = [].
Proof.
  unfold plot_bar. destruct index as [|j index]; [now intros [= <-]|].
  destruct (mapM _ _) as [height|]; simpl; [|discriminate].
  now intros [= <-].
Qed.

Lemma plot_video_saves neu rel path idx histo calls u :
  plot_video neu rel path idx histo = (calls, Ok u) ->
  saved_files calls = [path ++ "video-" ++ format_03d idx ++ ".png"].
Proof.
  unfold plot_video.
  destruct (plot_bar neu histo "blue") as [blue|] eqn:Hb; [|discriminate].
  destruct (plot_bar rel histo "red") as [red|] eqn:Hr; [|discriminate].
  intros [= <- _]. rewrite !saved_files_app.
  rewrite (plot_bar_saves_nothing _ _ _ _ Hb), (plot_bar_saves_nothing _ _ _ _ Hr).
  reflexivity.
Qed.

Lemma plot_videos_saves neu rel path idx histograms calls u :
  plot_videos neu rel path idx histograms = (calls, Ok u) ->
  saved_files calls =
  map (fun i => path ++ "video-" ++ format_03d i ++ ".png")
      (seq idx (length histograms)).
Proof.
  revert idx calls; induction histograms as [|histo rest IH]; intros idx calls; simpl.
  - now intros [= <- _].
  - destruct (plot_video neu rel path idx histo) as [c [v|]] eqn:Hv; [|discriminate].
    destruct (plot_videos neu rel path (S idx) rest) as [c' r] eqn:Hrest.
    intros [= <- ->]. rewrite saved_files_app.
    rewrite (plot_video_saves _ _ _ _ _ _ _ Hv), (IH _ _ Hrest). reflexivity.
Qed.

(** X16: when the plotting completes it has saved one figure per histogram,
    in the order of the videos, under the name video-NNN.png with the index
    of the video in decimal, at least three digits; no two figures have the
    same name, so none overwrites another. *)
Theorem figures_have_distinct_names histograms neu rel path calls :
  plot_and_save_histograms histograms neu rel path = (calls, Ok tt) ->
  saved_files calls =
    map (fun i => path ++ "video-" ++ format_03d i ++ ".png")
        (seq 0 (length histograms)) /\
  NoDup (saved_files calls).
Proof.
  unfold plot_and_save_histograms. intros H.
  apply plot_videos_saves in H. split; [exact H|].
  rewrite H. apply Injective_map_NoDup; [|apply seq_NoDup].
  intros a b. apply figure_name_inj.
Qed.







End Figures.

Section FiguresAfterRun.

Variable pow_half : Qc -> Qc.
Variable scaler : RobustScaler.
Variable fisher : FisherVectorGMM.
Implicit Types self : PreliminaryClustering (gmm_model fisher).


End FiguresAfterRun.

(** * The further properties on the sample data *)

Lemma sample_run_completes :
  execute_preliminary_clustering sample_pow_half sample_scaler
    sample_self sample_coord_df sample_seq_df []
  = (Ok sample_final, sample_final_trace).
Proof. vm_compute. reflexivity. Qed.

(** The rows of the arrays with the nose tip have 3 cells. *)
Lemma extractor_row_width_witness :
  exists video row,
    nth_error sample_velocities_nose 0 = Some video /\
    nth_error video 0 = Some row /\
    length row = 3%nat.
Proof.
  eexists. eexists. split; [reflexivity|]. split; [reflexivity|].
  eapply (extractor_row_width sample_pow_half sample_fisher sample_self_nose
            sample_coord_df sample_seq_df sample_velocities_nose).
  - exact sample_get_velocities_nose.
  - eapply nth_error_In with (n := 0%nat). reflexivity.
  - eapply nth_error_In with (n := 0%nat). reflexivity.
Defined.

(** Two landmarks and four coordinate columns: IndexError. *)
Lemma extractor_needs_nose_tip_witness :
  get_velocities_frames sample_pow_half sample_self_two_landmarks
    sample_coord_df_two_landmarks sample_seq_df
  = Raise "IndexError"%string.
Proof.
  apply (extractor_needs_nose_tip sample_pow_half sample_fisher
           sample_self_two_landmarks sample_coord_df_two_landmarks sample_seq_df).
  - simpl. lia.
  - discriminate.
Defined.

(** The sample table with every frame moved gives the same arrays. *)
Lemma extractor_translation_invariant_witness :
  get_velocities_frames sample_pow_half sample_self
    (translate_table 68 sample_offset sample_coord_df) sample_seq_df
  = Ok sample_velocities.
Proof.
  rewrite <- sample_get_velocities.
  apply (extractor_translation_invariant sample_pow_half sample_fisher sample_self
           sample_coord_df sample_seq_df sample_offset).
  - simpl. lia.
  - exact sample_coord_df_rows.
Defined.

(** Landmark 68 of 68 is selected and video 0 has five frames. *)
Lemma selected_index_out_of_range_witness :
  get_velocities_frames sample_pow_half sample_self_bad_selection
    sample_coord_df sample_seq_df
  = Raise "IndexError"%string.
Proof.
  destruct (selected_index_out_of_range sample_pow_half sample_fisher
              sample_self_bad_selection sample_coord_df sample_seq_df 68)
    as [Hraise _].
  - simpl. lia.
  - reflexivity.
  - exact sample_coord_df_rows.
  - right. left. reflexivity.
  - simpl. lia.
  - apply Hraise. exists 0%nat. split; [simpl; lia|]. vm_compute. lia.
Defined.

(** Training index 7 with three videos. *)
Lemma bad_training_index_raises_witness :
  scale_features sample_scaler sample_self_bad_training sample_velocities []
  = (Raise "IndexError"%string, []).
Proof.
  destruct (bad_training_index_raises sample_scaler sample_fisher
              sample_self_bad_training sample_velocities [] 7) as [H _].
  - right. left. reflexivity.
  - simpl. lia.
  - exact H.
Defined.

Lemma sample_generate_gmm_bic :
  generate_gmm sample_self_bic sample_tensor []
  = (Ok (firstn 3 (tensor_rows sample_tensor),
         set_threshold_and_kernels (TScalar (Q2Qc (4 # 10))) (KInt 3) sample_self_bic),
     [CallGmmFitByBic (KList [2; 3]) sample_tensor]).
Proof. reflexivity. Qed.

(** After the BIC fit on the sample tensor [self] has 3 kernels and the
    threshold 4/10 of the list. *)
Lemma generate_gmm_updates_witness :
  exists t,
    In t [Q2Qc (2 # 10); Q2Qc (4 # 10)] /\
    threshold_neutral
      (set_threshold_and_kernels (TScalar (Q2Qc (4 # 10))) (KInt 3) sample_self_bic)
    = TScalar t.
Proof.
  destruct (generate_gmm_updates sample_fisher sample_self_bic sample_tensor []
              _ _ _ sample_generate_gmm_bic) as (_ & _ & _ & _ & _ & H).
  cbn [fit_by_bic sample_self_bic] in H.
  destruct H as (_ & _ & _ & H). exact H.
Defined.

(** Two candidates, one threshold, and the second candidate wins. *)
Lemma bic_threshold_list_too_short_witness :
  generate_gmm sample_self_bic_short sample_tensor []
  = (Raise "IndexError"%string, [CallGmmFitByBic (KList [2; 3]) sample_tensor]).
Proof.
  apply (bic_threshold_list_too_short sample_fisher sample_self_bic_short
           sample_tensor (firstn 3 (tensor_rows sample_tensor))
           [2; 3] [Q2Qc (2 # 10)] 1%nat []).
  - reflexivity.
  - reflexivity.
  - reflexivity.
  - reflexivity.
  - reflexivity.
  - intros [|j] Hj; [vm_compute; discriminate | lia].
  - simpl. lia.
Defined.

(** Three videos: three calls of [predict]. *)
Lemma calculate_FV_encodes_every_video_witness :
  exists fvs tr',
    calculate_FV sample_self sample_gmm sample_scaled [] = (Ok fvs, tr') /\
    length tr' = 3%nat /\ length fvs = 3%nat.
Proof.
  destruct (calculate_FV sample_self sample_gmm sample_scaled [])
    as [[fvs|] tr'] eqn:E; [|vm_compute in E; discriminate].
  exists fvs, tr'. split; [reflexivity|].
  destruct (calculate_FV_encodes_every_video sample_fisher sample_self sample_gmm
              sample_scaled [] fvs tr' E) as (Xs & HX & Hp & ->).
  apply Forall2_length in HX, Hp. simpl in HX.
  rewrite app_nil_l, length_map. split; congruence.
Defined.

(** An encoding of one frame with four rows, for 2 kernels. *)
Lemma generate_histograms_returns_iff_witness :
  exists hists, generate_histograms sample_self [sample_fv_positive] = Ok hists.
Proof.
  destruct (generate_histograms_returns_iff sample_fisher sample_self 2
              [sample_fv_positive]) as [[_ H] _].
  - reflexivity.
  - lia.
  - apply H. constructor; [exact sample_fv_positive_shape | constructor].
Defined.

(** Another label and another histogram for video 1, which is not a
    training video. *)
Lemma partition_uses_training_only_witness :
  extract_relevant_and_neutral_configurations sample_self
    sample_seq_df sample_histograms
  = extract_relevant_and_neutral_configurations sample_self
      sample_seq_df_other sample_histograms_other.
Proof.
  apply (partition_uses_training_only sample_fisher sample_self).
  intros i [<-|[<-|[]]]; split; reflexivity.
Defined.

(** Training on video 0, then on videos 0 and 1, all of label 0. *)
Lemma partition_monotone_in_training_witness :
  incl [0%Z] [0%Z; 1%Z] /\ incl (@nil Z) [1%Z].
Proof.
  destruct (partition_monotone_in_training sample_fisher sample_self
              sample_seq_df_other sample_histograms (Q2Qc (3 # 10)) 2
              [0%Z] [0%Z; 1%Z] [1%Z] [0%Z] [] [0%Z; 1%Z]) as (H1 & H2 & _).
  - reflexivity.
  - reflexivity.
  - intros j [<-|[]]. now left.
  - reflexivity.
  - reflexivity.
  - split; assumption.
Defined.

(** Training index 7 with three rows in the sequence table. *)
Lemma partition_bad_training_index_witness :
  extract_relevant_and_neutral_configurations sample_self_bad_training
    sample_seq_df sample_histograms
  = Raise "IndexError"%string.
Proof.
  apply (partition_bad_training_index sample_fisher sample_self_bad_training
           sample_seq_df sample_histograms (Q2Qc (3 # 10)) 2 7).
  - reflexivity.
  - reflexivity.
  - right. left. reflexivity.
  - simpl. lia.
Defined.

(** The sample run makes six calls. *)
Lemma execute_call_sequence_witness : length sample_final_trace = 6%nat.
Proof.
  destruct (execute_call_sequence sample_pow_half sample_scaler sample_fisher
              sample_self sample_coord_df sample_seq_df [] sample_final
              sample_final_trace sample_run_completes)
    as (velocities & train & X & Xs & _ & _ & Htr & Hlen).
  rewrite Htr, app_nil_l, length_app, length_map, Hlen. reflexivity.
Defined.

(** The sample run leaves three histograms of two entries. *)
Lemma execute_leaves_histograms_and_partition_witness :
  exists hists,
    histograms_of_videos sample_final = Some hists /\
    length hists = 3%nat /\
    Forall (fun h => Z.of_nat (length h) = 2%Z) hists.
Proof.
  destruct (execute_leaves_histograms_and_partition sample_pow_half sample_scaler
              sample_fisher sample_self sample_coord_df sample_seq_df []
              sample_final sample_final_trace 2 (Q2Qc (3 # 10))
              sample_run_completes eq_refl eq_refl)
    as (hists & rel & neu & Hh & _ & _ & Hlen & Hlens & _).
  exists hists. split; [exact Hh|]. split; [exact Hlen | exact Hlens].
Defined.

(** Two landmarks: the run ends with IndexError and an empty trace. *)
Lemma execute_fails_before_any_call_witness :
  execute_preliminary_clustering sample_pow_half sample_scaler
    sample_self_two_landmarks sample_coord_df_two_landmarks sample_seq_df []
  = (Raise "IndexError"%string, []).
Proof.
  apply (execute_fails_before_any_call sample_pow_half sample_scaler sample_fisher
           sample_self_two_landmarks sample_coord_df_two_landmarks sample_seq_df []).
  - simpl. lia.
  - discriminate.
Defined.

(** The figures of the three sample histograms. *)
Lemma figures_have_distinct_names_witness :
  saved_files (fst (plot_and_save_histograms sample_histograms [0%Z] [1%Z] "figs/"))
  = ["figs/video-000.png"; "figs/video-001.png"; "figs/video-002.png"]%string.
Proof.
  destruct (plot_and_save_histograms sample_histograms [0%Z] [1%Z] "figs/")
    as [calls [[]|]] eqn:E; [|vm_compute in E; discriminate].
  destruct (figures_have_distinct_names sample_histograms [0%Z] [1%Z] "figs/"
              calls E) as [H _].
  exact H.
Defined.


